(** * Brochure cost calculator: page-range parser and cost engine

    A shallow embedding of [src/src/BrochureCalculator.tsx].

    Conventions of the embedding.
    - JavaScript numbers that hold counts and page numbers are integers in the
      program (they come from [parseInt], from counters and from products of
      counters); they are modelled as [Z].  This is exact below 2^53.
    - JavaScript numbers that hold money are modelled as exact rationals [Q];
      every equation on money that is stated with Leibniz equality [=] relates
      two syntactically identical computations, so it does not depend on how
      the arithmetic rounds.
    - A JavaScript string is a list of UTF-16 code units, each one an [N].
    - The template strings of the three error messages are modelled by the
      constructors of [ParseError], which keep the interpolated values. *)

From Stdlib Require Import ZArith QArith List Bool Lia String Ascii.
From Stdlib Require Import Sorted Lqa FinFun.
Import ListNotations.

#[local] Open Scope Z_scope.

(** ** Price tables and tier lookup *)

Record Tier : Type := mkTier { min : Z; price : Q }.

Definition bwTiers : list Tier :=
  [ mkTier 1000 0.04;
    mkTier 500 0.05;
    mkTier 250 0.06;
    mkTier 100 0.07;
    mkTier 50 0.09;
    mkTier 1 0.1 ].

Definition colorTiers : list Tier :=
  [ mkTier 5000 0.38;
    mkTier 1000 0.18;
    mkTier 500 0.28;
    mkTier 250 0.35;
    mkTier 100 0.43;
    mkTier 50 0.69;
    mkTier 1 0.84 ].

(** The [for ... of] scan of [getPrice]: the first tier whose [min] the
    quantity reaches, if there is one. *)
Fixpoint firstTier (tiers : list Tier) (quantity : Z) : option Q :=
  match tiers with
  | [] => None
  | tier :: rest =>
      if quantity >=? min tier then Some (price tier)
      else firstTier rest quantity
  end.

(** [getPrice]: the scan, then the fall-back [tiers[tiers.length - 1].price].
    On an empty table the source would throw; both tables of the program are
    non-empty, and the model answers the price of a zero tier there. *)
Definition getPrice (tiers : list Tier) (quantity : Z) : Q :=
  match firstTier tiers quantity with
  | Some p => p
  | None => price (last tiers (mkTier 0 0))
  end.

(** ** The breakdown record *)

Record Breakdown : Type := mkBreakdown {
  swCount : Z;
  effectiveSwCount : Z;
  swUnitPrice : Q;
  swSurcharge : Q;
  swTotal : Q;
  colorCount : Z;
  effectiveColorCount : Z;
  colorUnitPrice : Q;
  colorSurcharge : Q;
  colorTotal : Q;
  bindingCount : Z;
  bindingCost : Q;
  totalCost : Q
}.

(** ** Imposition *)

(** [Array.prototype.some] and [Array.prototype.includes] on arrays of
    numbers. *)
Definition some {A : Type} (f : A -> bool) (xs : list A) : bool := existsb f xs.

Definition includes (xs : list Z) (p : Z) : bool := existsb (Z.eqb p) xs.

(** [Math.ceil(pagesPerBrochure / 4) * 4] on an integer page count. *)
Definition totalPagesOf (pagesPerBrochure : Z) : Z :=
  ((pagesPerBrochure + 3) / 4) * 4.

Definition sheetsOf (pagesPerBrochure : Z) : Z :=
  totalPagesOf pagesPerBrochure / 4.

(** The two impressions of sheet [j], as the array literal of the loop body. *)
Definition impressionsOf (totalPages j : Z) : list (list Z) :=
  let pageA := totalPages - 2 * j in
  let pageB := 1 + 2 * j in
  let pageC := 2 + 2 * j in
  let pageD := totalPages - (2 * j + 1) in
  [ [pageA; pageB]; [pageC; pageD] ].

(** The counters mutated by the loop: [(totalBW, totalColor)]. *)
Definition Counters : Type := (Z * Z)%type.

(** The callback of [impressions.forEach]. *)
Definition countImpression (pagesPerBrochure : Z) (colorPages : list Z)
    (acc : Counters) (pair : list Z) : Counters :=
  let '(totalBW, totalColor) := acc in
  if some (fun p => p <=? pagesPerBrochure) pair then
    let isColorImpression :=
      some (fun p => (p <=? pagesPerBrochure) && includes colorPages p) pair in
    if isColorImpression then (totalBW, totalColor + 1)
    else (totalBW + 1, totalColor)
  else acc.

(** One iteration of the [for (let j = 0; j < sheets; j++)] loop. *)
Definition sheetStep (pagesPerBrochure : Z) (colorPages : list Z)
    (totalPages : Z) (acc : Counters) (j : Z) : Counters :=
  fold_left (countImpression pagesPerBrochure colorPages)
            (impressionsOf totalPages j) acc.

(** The values taken by [j]: 0, 1, ..., sheets - 1 (none when sheets <= 0). *)
Definition sheetIndices (sheets : Z) : list Z :=
  map Z.of_nat (seq 0 (Z.to_nat sheets)).

(** The whole loop, from [totalBW = 0], [totalColor = 0]. *)
Definition countImpressions (pagesPerBrochure : Z) (colorPages : list Z)
    : Counters :=
  let totalPages := totalPagesOf pagesPerBrochure in
  let sheets := totalPages / 4 in
  fold_left (sheetStep pagesPerBrochure colorPages totalPages)
            (sheetIndices sheets) (0, 0).

(** ** The cost engine *)

Definition calculateBrochureBreakdown (pagesPerBrochure : Z)
    (colorPages : list Z) (brochureCount : Z) (isA3 : bool) : Breakdown :=
  let '(totalBW, totalColor) := countImpressions pagesPerBrochure colorPages in
  let totalColor := totalColor * brochureCount in
  let totalBW := totalBW * brochureCount in
  let effectiveColor := if isA3 then totalColor * 2 else totalColor in
  let effectiveBW := if isA3 then totalBW * 2 else totalBW in
  let factor : Q := if isA3 then 2%Q else 1%Q in
  let swUnit := (getPrice bwTiers effectiveBW * factor)%Q in
  let colorUnit := (getPrice colorTiers effectiveColor * factor)%Q in
  let totalImpressions := totalColor + totalBW in
  let '(swSurcharge, colorSurcharge, swCost, colorCost) :=
    if totalImpressions >? 0 then
      if (totalColor >? 0) && (effectiveColor <? 50) then
        let colorSurcharge : Q := if isA3 then 2.4%Q else 1.2%Q in
        (0%Q, colorSurcharge,
         (inject_Z totalBW * swUnit)%Q,
         (colorSurcharge + inject_Z (totalColor - 1) * colorUnit)%Q)
      else if (totalColor =? 0) && (effectiveBW <? 50) then
        let swSurcharge : Q := if isA3 then 0.9%Q else 0.45%Q in
        (swSurcharge, 0%Q,
         (swSurcharge + inject_Z (totalBW - 1) * swUnit)%Q,
         0%Q)
      else
        (0%Q, 0%Q,
         (inject_Z totalBW * swUnit)%Q,
         (inject_Z totalColor * colorUnit)%Q)
    else (0%Q, 0%Q, 0%Q, 0%Q) in
  let bindingCost : Q :=
    if pagesPerBrochure <? 5 then 0%Q else (inject_Z brochureCount * 0.18)%Q in
  let bindingCount := if pagesPerBrochure <? 5 then 0 else brochureCount in
  let totalCost := (swCost + colorCost + bindingCost)%Q in
  {| swCount := totalBW;
     effectiveSwCount := effectiveBW;
     swUnitPrice := swUnit;
     swSurcharge := swSurcharge;
     swTotal := swCost;
     colorCount := totalColor;
     effectiveColorCount := effectiveColor;
     colorUnitPrice := colorUnit;
     colorSurcharge := colorSurcharge;
     colorTotal := colorCost;
     bindingCount := bindingCount;
     bindingCost := bindingCost;
     totalCost := totalCost |}.

(** ** Strings *)

(** A string is the list of its UTF-16 code units. *)
Definition CodeUnit : Type := N.
Definition JsString : Type := list CodeUnit.

(** A literal of the development, written with the characters of Latin-1. *)
Definition js (s : string) : JsString :=
  map N_of_ascii (list_ascii_of_string s).

Definition comma : CodeUnit := 44%N.
Definition hyphen : CodeUnit := 45%N.
Definition plus : CodeUnit := 43%N.

Definition isDigit (c : CodeUnit) : bool := ((48 <=? c) && (c <=? 57))%N.

(** White space and line terminators of ECMAScript: what [\s] matches, what
    [trim] strips and what [parseInt] skips. *)
Definition isSpace (c : CodeUnit) : bool :=
  existsb (N.eqb c)
    [9; 10; 11; 12; 13; 32; 160; 5760; 8232; 8233; 8239; 8287; 12288; 65279]%N
  || ((8192 <=? c) && (c <=? 8202))%N.

(** [/^[0-9,\-\s]*$/.test(input)] *)
Definition allowedChar (c : CodeUnit) : bool :=
  isDigit c || (c =? comma)%N || (c =? hyphen)%N || isSpace c.

Definition onlyAllowedChars (input : JsString) : bool := forallb allowedChar input.

(** [s.split(sep)] for a one-character separator: never empty, one more piece
    than there are separators. *)
Fixpoint split (sep : CodeUnit) (s : JsString) : list JsString :=
  match s with
  | [] => [[]]
  | c :: rest =>
      if (c =? sep)%N then [] :: split sep rest
      else match split sep rest with
           | [] => [[c]]
           | piece :: pieces => (c :: piece) :: pieces
           end
  end.

Fixpoint dropWhile {A : Type} (f : A -> bool) (xs : list A) : list A :=
  match xs with
  | [] => []
  | x :: rest => if f x then dropWhile f rest else xs
  end.

Fixpoint takeWhile {A : Type} (f : A -> bool) (xs : list A) : list A :=
  match xs with
  | [] => []
  | x :: rest => if f x then x :: takeWhile f rest else []
  end.

(** [s.trim()] *)
Definition trim (s : JsString) : JsString :=
  rev (dropWhile isSpace (rev (dropWhile isSpace s))).

(** [token.includes('-')] and the like. *)
Definition includesChar (s : JsString) (c : CodeUnit) : bool :=
  existsb (N.eqb c) s.

(** The number of occurrences of a code unit. *)
Definition countChar (c : CodeUnit) (s : JsString) : nat :=
  List.length (filter (N.eqb c) s).

Definition isEmpty (s : JsString) : bool :=
  match s with [] => true | _ => false end.

Definition digitValue (c : CodeUnit) : Z := Z.of_N c - 48.

(** The value of a run of decimal digits, most significant first. *)
Definition digitsValue (ds : JsString) : Z :=
  fold_left (fun acc c => 10 * acc + digitValue c) ds 0.

(** [parseInt(s, 10)]: leading white space is skipped, one sign is read, then
    the longest run of digits; [None] is NaN. *)
Definition parseInt (s : JsString) : option Z :=
  let s1 := dropWhile isSpace s in
  let '(sign, s2) :=
    match s1 with
    | c :: rest =>
        if (c =? hyphen)%N then (-1, rest)
        else if (c =? plus)%N then (1, rest)
        else (1, s1)
    | [] => (1, s1)
    end in
  match takeWhile isDigit s2 with
  | [] => None
  | ds => Some (sign * digitsValue ds)
  end.

(** ** The page-range parser *)

Inductive ParseError : Type :=
| InvalidCharacters
| InvalidRange (token : JsString)
| PageOutOfBounds (value maxPage : Z).

(** The returned object [{ pages, error? }]. *)
Record ParseResult : Type := mkParseResult {
  pages : list Z;
  error : option ParseError
}.

(** [Set.prototype.add] on a [Set<number>] kept in insertion order, which is
    the order [Array.from] lists it in. *)
Definition setAdd (x : Z) (resultSet : list Z) : list Z :=
  if includes resultSet x then resultSet else resultSet ++ [x].

(** The loop [for (let i = start; i <= end; i++)] with [trips] iterations
    left: either the early return of the bound check or the grown set. *)
Fixpoint rangeLoop (trips : nat) (i maxPage : Z) (resultSet : list Z)
    : ParseError + list Z :=
  match trips with
  | O => inr resultSet
  | S trips' =>
      if i >? maxPage then inl (PageOutOfBounds i maxPage)
      else rangeLoop trips' (i + 1) maxPage (setAdd i resultSet)
  end.

(** The loop runs for i = start, ..., end: end - start + 1 iterations when
    start <= end. *)
Definition addRange (start end_ maxPage : Z) (resultSet : list Z)
    : ParseError + list Z :=
  rangeLoop (Z.to_nat (end_ - start + 1)) start maxPage resultSet.

(** [const [startStr, endStr] = token.split('-').map(t => t.trim())] followed
    by the two [parseInt]; a missing piece is [undefined], which parses to
    NaN. *)
Definition rangeEnds (token : JsString) : option Z * option Z :=
  match map trim (split hyphen token) with
  | startStr :: endStr :: _ => (parseInt startStr, parseInt endStr)
  | [startStr] => (parseInt startStr, None)
  | [] => (None, None)
  end.

(** The body of [for (const token of tokens)]. *)
Definition tokenStep (maxPage : Z) (token : JsString) (resultSet : list Z)
    : ParseError + list Z :=
  if includesChar token hyphen then
    match rangeEnds token with
    | (Some start, Some end_) =>
        if start >? end_ then inl (InvalidRange token)
        else addRange start end_ maxPage resultSet
    | _ => inl (InvalidRange token)
    end
  else
    match parseInt token with
    | None => inr resultSet
    | Some num =>
        if num >? maxPage then inl (PageOutOfBounds num maxPage)
        else inr (setAdd num resultSet)
    end.

Fixpoint tokenLoop (maxPage : Z) (tokens : list JsString) (resultSet : list Z)
    : ParseError + list Z :=
  match tokens with
  | [] => inr resultSet
  | token :: rest =>
      match tokenStep maxPage token resultSet with
      | inl e => inl e
      | inr resultSet' => tokenLoop maxPage rest resultSet'
      end
  end.

(** [input.split(',').map(t => t.trim()).filter(t => t !== '')] *)
Definition tokensOf (input : JsString) : list JsString :=
  filter (fun t => negb (isEmpty t)) (map trim (split comma input)).

(** The two ways out of the token loop: [return { pages: [], error }] from
    inside it and [return { pages: Array.from(resultSet) }] after it. *)
Definition toResult (outcome : ParseError + list Z) : ParseResult :=
  match outcome with
  | inl e => {| pages := []; error := Some e |}
  | inr resultSet => {| pages := resultSet; error := None |}
  end.

Definition parseColorPages (input : JsString) (maxPage : Z) : ParseResult :=
  if negb (onlyAllowedChars input) then
    {| pages := []; error := Some InvalidCharacters |}
  else toResult (tokenLoop maxPage (tokensOf input) []).

(** The invariant of the set under construction: its pages are within the
    bounds, and listed once. *)
Definition wellFormed (maxPage : Z) (resultSet : list Z) : Prop :=
  Forall (fun x => 0 <= x <= maxPage) resultSet /\ NoDup resultSet.

(** ** The imposition rules as the specification words them *)

(** An impression is a pair of logical page slots. *)
Definition Impression : Type := (Z * Z)%type.

(** "Impression 1: slots (totalPages - 2j, 1 + 2j); Impression 2: slots
    (2 + 2j, totalPages - (2j+1))". *)
Definition specImpressions (totalPages j : Z) : list Impression :=
  [ (totalPages - 2 * j, 1 + 2 * j);
    (2 + 2 * j, totalPages - (2 * j + 1)) ].

(** "For sheet index j from 0 to sheets-1". *)
Definition specLayout (totalPages sheets : Z) : list Impression :=
  flat_map (specImpressions totalPages) (sheetIndices sheets).

Inductive Billing : Type := Blank | Monochrome | Color.

Section Billing.
Variable pagesPerBrochure : Z.
Variable colorPages : list Z.

(** A slot qualifies when it is within the true page count. *)
Definition qualifies (slot : Z) : Prop := slot <= pagesPerBrochure.

Definition counted (i : Impression) : Prop :=
  qualifies (fst i) \/ qualifies (snd i).

Definition coloured (i : Impression) : Prop :=
  (qualifies (fst i) /\ In (fst i) colorPages) \/
  (qualifies (snd i) /\ In (snd i) colorPages).

(** Rules 3 and 4 of the imposition algorithm. *)
Inductive billed (i : Impression) : Billing -> Prop :=
| billed_blank : ~ counted i -> billed i Blank
| billed_color : counted i -> coloured i -> billed i Color
| billed_mono : counted i -> ~ coloured i -> billed i Monochrome.

(** What one impression adds to [(totalBW, totalColor)]. *)
Definition credit (k : Billing) (acc : Counters) : Counters :=
  match k with
  | Blank => acc
  | Monochrome => (fst acc + 1, snd acc)
  | Color => (fst acc, snd acc + 1)
  end.

(** The number of monochrome and of color impressions of a layout. *)
Inductive tally : list Impression -> Z -> Z -> Prop :=
| tally_nil : tally [] 0 0
| tally_cons i k rest bw col :
    billed i k -> tally rest bw col ->
    tally (i :: rest) (fst (credit k (bw, col))) (snd (credit k (bw, col))).
End Billing.

Definition slotsOf (i : Impression) : list Z := [fst i; snd i].

(** ** Further notions used by the properties below *)

(** Every slot the loop of [calculateBrochureBreakdown] looks at, in the
    order it looks at them. *)
Definition slotsVisited (pagesPerBrochure : Z) : list Z :=
  let totalPages := totalPagesOf pagesPerBrochure in
  let sheets := totalPages / 4 in
  List.concat (flat_map (impressionsOf totalPages) (sheetIndices sheets)).

(** A table whose prices never fall along the scan of [getPrice]. *)
Definition pricesRiseAlongScan (tiers : list Tier) : Prop :=
  StronglySorted (fun a b => (price a <= price b)%Q) tiers.

(** A table whose thresholds strictly fall along the scan. *)
Definition minsFallAlongScan (tiers : list Tier) : Prop :=
  StronglySorted (fun a b => min b < min a) tiers.

(** The pages a token stands for: the values of its range, or its number. *)
Definition tokenDenotes (token : JsString) (x : Z) : Prop :=
  if includesChar token hyphen then
    exists start end_,
      rangeEnds token = (Some start, Some end_) /\ start <= x <= end_
  else parseInt token = Some x.

(** ** The component *)

(** [handleColorPagesChange]: the text kept in [colorPagesInput], that is
    [value.replace(/[^0-9,\-\s]/g, '')]. *)
Definition handleColorPagesChange (value : JsString) : JsString :=
  filter allowedChar value.

(** What the effect leaves in the [error] and [breakdown] states; the empty
    error string is [None], the [null] breakdown is [None]. *)
Record Display : Type := mkDisplay {
  shownError : option ParseError;
  shownBreakdown : option Breakdown
}.

(** The body of [useEffect]: parse, then show the error or the breakdown.
    Each of the three error messages is a non-empty string, so
    [if (parseError)] holds exactly when there is one. *)
Definition effect (pagesState : Z) (colorPagesInput : JsString)
    (brochureCount : Z) (isA3 : bool) : Display :=
  let parsed := parseColorPages colorPagesInput pagesState in
  match error parsed with
  | Some parseError =>
      {| shownError := Some parseError; shownBreakdown := None |}
  | None =>
      {| shownError := None;
         shownBreakdown :=
           Some (calculateBrochureBreakdown pagesState (pages parsed)
                   brochureCount isA3) |}
  end.

(** ** Imposition: the loop against the rules *)

Lemma includes_In (xs : list Z) (p : Z) : includes xs p = true <-> In p xs.
Proof.
  unfold includes. rewrite existsb_exists. split.
  - intros [x [Hin Heq]]. apply Z.eqb_eq in Heq. now subst.
  - intros Hin. exists p. split; [assumption | apply Z.eqb_refl].
Qed.

Lemma counted_some (p : Z) (i : Impression) :
  some (fun q => q <=? p) (slotsOf i) = true <-> counted p i.
Proof.
  destruct i as [a b]. unfold counted, qualifies, some. simpl.
  rewrite orb_false_r, orb_true_iff, !Z.leb_le. reflexivity.
Qed.

Lemma coloured_some (p : Z) (cp : list Z) (i : Impression) :
  some (fun q => (q <=? p) && includes cp q) (slotsOf i) = true
  <-> coloured p cp i.
Proof.
  destruct i as [a b]. unfold coloured, qualifies, some. simpl.
  rewrite orb_false_r, orb_true_iff, !andb_true_iff, !Z.leb_le, !includes_In.
  reflexivity.
Qed.

Lemma billed_functional (p : Z) (cp : list Z) (i : Impression) (k1 k2 : Billing) :
  billed p cp i k1 -> billed p cp i k2 -> k1 = k2.
Proof.
  intros H1 H2. destruct H1; destruct H2; try reflexivity; contradiction.
Qed.

Lemma billed_total (p : Z) (cp : list Z) (i : Impression) :
  exists k, billed p cp i k.
Proof.
  destruct (some (fun q => q <=? p) (slotsOf i)) eqn:Hc.
  - apply counted_some in Hc.
    destruct (some (fun q => (q <=? p) && includes cp q) (slotsOf i)) eqn:Hk.
    + exists Color. apply billed_color; [assumption | now apply coloured_some].
    + exists Monochrome. apply billed_mono; [assumption |].
      intros Hcol. apply coloured_some in Hcol. congruence.
  - exists Blank. apply billed_blank. intros Hcnt.
    apply counted_some in Hcnt. congruence.
Qed.

Lemma countImpression_billed (p : Z) (cp : list Z) (i : Impression)
    (k : Billing) (acc : Counters) :
  billed p cp i k ->
  countImpression p cp acc (slotsOf i) = credit k acc.
Proof.
  intros Hb. destruct acc as [bw col]. unfold countImpression.
  destruct Hb as [Hn | Hc Hk | Hc Hk].
  - destruct (some _ (slotsOf i)) eqn:E; [| reflexivity].
    apply counted_some in E. contradiction.
  - apply counted_some in Hc. apply coloured_some in Hk.
    rewrite Hc, Hk. reflexivity.
  - apply counted_some in Hc. rewrite Hc.
    destruct (some (fun q => (q <=? p) && includes cp q) (slotsOf i)) eqn:E;
      [| reflexivity].
    apply coloured_some in E. contradiction.
Qed.

Lemma tally_functional (p : Z) (cp : list Z) (l : list Impression) :
  forall bw1 col1 bw2 col2,
    tally p cp l bw1 col1 -> tally p cp l bw2 col2 ->
    bw1 = bw2 /\ col1 = col2.
Proof.
  induction l as [| i rest IH]; intros bw1 col1 bw2 col2 H1 H2.
  - inversion H1; inversion H2; subst. split; reflexivity.
  - inversion H1 as [| i1 k1 r1 b1 c1 Hk1 Ht1]; subst.
    inversion H2 as [| i2 k2 r2 b2 c2 Hk2 Ht2]; subst.
    destruct (IH _ _ _ _ Ht1 Ht2) as [-> ->].
    rewrite (billed_functional _ _ _ _ _ Hk1 Hk2). split; reflexivity.
Qed.

Lemma tally_nonneg (p : Z) (cp : list Z) (l : list Impression) (bw col : Z) :
  tally p cp l bw col -> 0 <= bw /\ 0 <= col.
Proof.
  induction 1 as [| i k rest bw col Hk Ht [IHb IHc]]; [lia |].
  destruct k; simpl; lia.
Qed.

(** The counters after a run of impressions are the counters before plus the
    tally of the run. *)
Lemma fold_countImpression_tally (p : Z) (cp : list Z) (l : list Impression) :
  forall acc, exists bw col,
    tally p cp l bw col /\
    fold_left (countImpression p cp) (map slotsOf l) acc
    = (fst acc + bw, snd acc + col).
Proof.
  induction l as [| i rest IH]; intros [bw0 col0].
  - exists 0, 0. split; [constructor |]. simpl. f_equal; lia.
  - destruct (billed_total p cp i) as [k Hk]. cbn [map fold_left].
    rewrite (countImpression_billed p cp i k (bw0, col0) Hk).
    destruct (IH (credit k (bw0, col0))) as [bw [col [Ht Hf]]].
    exists (fst (credit k (bw, col))), (snd (credit k (bw, col))).
    split; [now constructor |].
    rewrite Hf. destruct k; simpl; f_equal; lia.
Qed.

Lemma impressionsOf_spec (totalPages j : Z) :
  impressionsOf totalPages j = map slotsOf (specImpressions totalPages j).
Proof. reflexivity. Qed.

Lemma fold_sheetStep_flat (p : Z) (cp : list Z) (totalPages : Z) (js : list Z) :
  forall acc,
    fold_left (sheetStep p cp totalPages) js acc
    = fold_left (countImpression p cp)
        (map slotsOf (flat_map (specImpressions totalPages) js)) acc.
Proof.
  induction js as [| j rest IH]; intros acc; [reflexivity |].
  cbn [fold_left flat_map]. rewrite map_app, fold_left_app, IH.
  reflexivity.
Qed.

Lemma countImpressions_tally (p : Z) (cp : list Z) :
  tally p cp (specLayout (totalPagesOf p) (sheetsOf p))
        (fst (countImpressions p cp)) (snd (countImpressions p cp)).
Proof.
  unfold countImpressions. rewrite fold_sheetStep_flat.
  destruct (fold_countImpression_tally p cp
              (specLayout (totalPagesOf p) (sheetsOf p)) (0, 0))
    as [bw [col [Ht Hf]]].
  unfold specLayout, sheetsOf in *. rewrite Hf. exact Ht.
Qed.

Lemma sheetIndices_In (sheets j : Z) :
  In j (sheetIndices sheets) <-> 0 <= j < sheets.
Proof.
  unfold sheetIndices. rewrite in_map_iff. split.
  - intros [n [<- Hn]]. apply in_seq in Hn. lia.
  - intros Hj. exists (Z.to_nat j). split; [lia |]. apply in_seq. lia.
Qed.

Lemma totalPagesOf_round (p : Z) :
  totalPagesOf p mod 4 = 0 /\ p <= totalPagesOf p < p + 4.
Proof.
  unfold totalPagesOf. split.
  - apply Z.mod_mul. lia.
  - pose proof (Z.div_mod (p + 3) 4 ltac:(lia)).
    pose proof (Z.mod_pos_bound (p + 3) 4 ltac:(lia)). lia.
Qed.

Lemma counts_of_breakdown (p : Z) (cp : list Z) (n : Z) (a3 : bool) :
  swCount (calculateBrochureBreakdown p cp n a3)
    = fst (countImpressions p cp) * n /\
  colorCount (calculateBrochureBreakdown p cp n a3)
    = snd (countImpressions p cp) * n.
Proof.
  unfold calculateBrochureBreakdown.
  destruct (countImpressions p cp) as [bw col]. simpl.
  repeat match goal with |- context [if ?c then _ else _] => destruct c end;
    split; reflexivity.
Qed.

(** C1. For every pagesPerBrochure >= 1, with totalPages the page count
    rounded up to a multiple of 4 and sheets = totalPages / 4: the loop visits
    exactly the sheet indices 0 .. sheets-1; sheet j is laid out as the two
    impressions with slots (totalPages - 2j, 1 + 2j) and
    (2 + 2j, totalPages - (2j+1)); an impression adds to the counters if and
    only if one of its slots is <= pagesPerBrochure, to the color counter if
    and only if such a slot is in colorPages and to the monochrome counter
    otherwise; the per-brochure counters at the end of the loop are the
    tally of that layout, and the breakdown reports them multiplied by
    brochureCount. *)
Theorem imposition_layout_and_classification :
  forall (pagesPerBrochure : Z) (colorPages : list Z),
    1 <= pagesPerBrochure ->
    let totalPages := totalPagesOf pagesPerBrochure in
    let sheets := sheetsOf pagesPerBrochure in
    (totalPages mod 4 = 0 /\ pagesPerBrochure <= totalPages < pagesPerBrochure + 4
     /\ totalPages = 4 * sheets) /\
    (forall j, In j (sheetIndices sheets) <-> 0 <= j < sheets) /\
    (forall j, 0 <= j < sheets ->
       impressionsOf totalPages j
       = [ [totalPages - 2 * j; 1 + 2 * j];
           [2 + 2 * j; totalPages - (2 * j + 1)] ]) /\
    (forall (a b : Z) (acc : Counters),
       let after := countImpression pagesPerBrochure colorPages acc [a; b] in
       let anySlot := a <= pagesPerBrochure \/ b <= pagesPerBrochure in
       let colorSlot :=
         (a <= pagesPerBrochure /\ In a colorPages) \/
         (b <= pagesPerBrochure /\ In b colorPages) in
       (fst after + snd after = fst acc + snd acc + 1 <-> anySlot) /\
       (~ anySlot -> after = acc) /\
       (anySlot -> (after = (fst acc, snd acc + 1) <-> colorSlot)) /\
       (anySlot -> (after = (fst acc + 1, snd acc) <-> ~ colorSlot))) /\
    (forall bw col,
       tally pagesPerBrochure colorPages (specLayout totalPages sheets) bw col
       <-> countImpressions pagesPerBrochure colorPages = (bw, col)) /\
    (forall brochureCount isA3,
       let b := calculateBrochureBreakdown pagesPerBrochure colorPages
                  brochureCount isA3 in
       swCount b = fst (countImpressions pagesPerBrochure colorPages) * brochureCount /\
       colorCount b = snd (countImpressions pagesPerBrochure colorPages) * brochureCount).
Proof.
  intros p cp Hp totalPages sheets.
  pose proof (totalPagesOf_round p) as [Hmod Hrange].
  split; [| split; [| split; [| split; [| split]]]].
  - split; [exact Hmod | split; [exact Hrange |]].
    subst totalPages sheets. unfold sheetsOf.
    pose proof (Z.div_mod (totalPagesOf p) 4 ltac:(lia)). lia.
  - intros j. apply sheetIndices_In.
  - intros j _. reflexivity.
  - intros a b acc after anySlot colorSlot.
    assert (Hcnt : anySlot <-> counted p (a, b)) by reflexivity.
    assert (Hcol : colorSlot <-> coloured p cp (a, b)) by reflexivity.
    destruct (billed_total p cp (a, b)) as [k Hk].
    pose proof (countImpression_billed p cp (a, b) k acc Hk) as Hstep.
    change (slotsOf (a, b)) with [a; b] in Hstep. fold after in Hstep.
    destruct acc as [bw col].
    destruct Hk as [Hn | Hc Hcl | Hc Hnc]; simpl in Hstep; rewrite Hstep; simpl;
      rewrite Hcnt, Hcol; repeat split; intros; try tauto; try lia;
      try (exfalso; lia);
      try match goal with
          | H : (_, _) = (_, _) |- _ => inversion H; lia
          end.
  - intros bw col. pose proof (countImpressions_tally p cp) as Ht. split.
    + intros H. destruct (tally_functional _ _ _ _ _ _ _ Ht H) as [Hb Hc].
      destruct (countImpressions p cp). simpl in Hb, Hc. now subst.
    + intros E. rewrite E in Ht. exact Ht.
  - intros n a3. apply counts_of_breakdown.
Qed.

Lemma imposition_layout_witness :
  specLayout (totalPagesOf 6) (sheetsOf 6) = [(8, 1); (2, 7); (6, 3); (4, 5)] /\
  tally 6 [3] (specLayout (totalPagesOf 6) (sheetsOf 6)) 3 1.
Proof.
  split; [reflexivity |].
  pose proof (imposition_layout_and_classification 6 [3] ltac:(lia)) as H.
  cbv zeta in H. destruct H as [_ [_ [_ [_ [H _]]]]].
  apply H. reflexivity.
Defined.

(** ** The cost engine: counts *)

Lemma sheetIndices_head (sheets : Z) :
  1 <= sheets -> exists rest, sheetIndices sheets = 0 :: rest.
Proof.
  intros Hs. unfold sheetIndices.
  destruct (Z.to_nat sheets) as [| n] eqn:E; [lia |].
  exists (map Z.of_nat (seq 1 n)). reflexivity.
Qed.

Lemma sheetsOf_pos (p : Z) : 1 <= p -> 1 <= sheetsOf p.
Proof.
  intros Hp. unfold sheetsOf.
  pose proof (totalPagesOf_round p) as [Hmod Hrange].
  pose proof (Z.div_mod (totalPagesOf p) 4 ltac:(lia)). lia.
Qed.

(** Sheet 0's first impression carries logical page 1, so one impression at
    least is counted. *)
Lemma countImpressions_pos (p : Z) (cp : list Z) :
  1 <= p ->
  0 <= fst (countImpressions p cp) /\ 0 <= snd (countImpressions p cp) /\
  1 <= fst (countImpressions p cp) + snd (countImpressions p cp).
Proof.
  intros Hp. pose proof (countImpressions_tally p cp) as Ht.
  destruct (sheetIndices_head (sheetsOf p) (sheetsOf_pos p Hp)) as [rest Hrest].
  unfold specLayout in Ht. rewrite Hrest in Ht. cbn [flat_map specImpressions app] in Ht.
  inversion Ht as [| i k l bw col Hk Hl Hi Hbw Hcol]; subst.
  destruct (tally_nonneg _ _ _ _ _ Hl) as [Hb0 Hc0].
  destruct Hk as [Hn | _ _ | _ _]; simpl.
  - exfalso. apply Hn. right. unfold qualifies. simpl. lia.
  - lia.
  - lia.
Qed.

Ltac open_breakdown p cp :=
  unfold calculateBrochureBreakdown;
  destruct (countImpressions p cp) as [bw col]; cbv zeta.

Ltac split_tests :=
  repeat match goal with
         | |- context [if ?c then _ else _] =>
             lazymatch c with
             | context [if _ then _ else _] => fail
             | _ => destruct c eqn:?
             end
         end.

(** C10. For every pagesPerBrochure >= 1 and brochureCount >= 1 the breakdown
    counts at least one impression (monochrome plus color), so the test
    [totalImpressions > 0] of the engine succeeds and the branch that leaves
    every per-category cost at zero is not taken. *)
Theorem impressions_at_least_one :
  forall (pagesPerBrochure : Z) (colorPages : list Z) (brochureCount : Z)
         (isA3 : bool),
    1 <= pagesPerBrochure -> 1 <= brochureCount ->
    let b := calculateBrochureBreakdown pagesPerBrochure colorPages
               brochureCount isA3 in
    1 <= swCount b + colorCount b /\
    (colorCount b + swCount b >? 0) = true.
Proof.
  intros p cp n a3 Hp Hn b.
  destruct (counts_of_breakdown p cp n a3) as [Hsw Hcol].
  destruct (countImpressions_pos p cp Hp) as [Hb [Hc Hsum]].
  fold b in Hsw, Hcol. rewrite Hsw, Hcol.
  assert (1 <= fst (countImpressions p cp) * n + snd (countImpressions p cp) * n)
    by nia.
  split; [assumption | apply Z.gtb_lt; lia].
Qed.

Lemma impressions_at_least_one_witness :
  1 <= swCount (calculateBrochureBreakdown 6 [3] 2 false)
       + colorCount (calculateBrochureBreakdown 6 [3] 2 false).
Proof.
  apply (impressions_at_least_one 6 [3] 2 false); lia.
Defined.

(** ** The cost engine: prices *)

(** C2. When the counted impressions are > 0: if the color count is > 0 and
    the effective color count is < 50, one color impression is billed at the
    flat surcharge (1.20 at A4, 2.40 at A3), the color subtotal is
    surcharge + (totalColor - 1) * colorUnitPrice and monochrome is billed at
    totalBW * swUnitPrice; else if the color count is 0 and the effective
    monochrome count is < 50, one monochrome impression is billed at the flat
    surcharge (0.45 at A4, 0.90 at A3) and the monochrome subtotal is
    surcharge + (totalBW - 1) * swUnitPrice; else each subtotal is
    count * unit price with no surcharge.  When the counted impressions are
    not > 0 nothing is billed.  Valid inputs always have counted
    impressions > 0. *)
Theorem surcharge_policy :
  forall (pagesPerBrochure : Z) (colorPages : list Z) (brochureCount : Z)
         (isA3 : bool),
    let b := calculateBrochureBreakdown pagesPerBrochure colorPages
               brochureCount isA3 in
    let colorFlat : Q := if isA3 then 2.4%Q else 1.2%Q in
    let swFlat : Q := if isA3 then 0.9%Q else 0.45%Q in
    let colorSmall := 0 < colorCount b /\ effectiveColorCount b < 50 in
    let swSmall := colorCount b = 0 /\ effectiveSwCount b < 50 in
    (1 <= pagesPerBrochure -> 1 <= brochureCount ->
       0 < colorCount b + swCount b) /\
    (0 < colorCount b + swCount b ->
       (colorSmall ->
          colorSurcharge b = colorFlat /\ swSurcharge b = 0%Q /\
          colorTotal b
          = (colorFlat + inject_Z (colorCount b - 1) * colorUnitPrice b)%Q /\
          swTotal b = (inject_Z (swCount b) * swUnitPrice b)%Q) /\
       (~ colorSmall -> swSmall ->
          swSurcharge b = swFlat /\ colorSurcharge b = 0%Q /\
          swTotal b = (swFlat + inject_Z (swCount b - 1) * swUnitPrice b)%Q /\
          colorTotal b = 0%Q) /\
       (~ colorSmall -> ~ swSmall ->
          swSurcharge b = 0%Q /\ colorSurcharge b = 0%Q /\
          swTotal b = (inject_Z (swCount b) * swUnitPrice b)%Q /\
          colorTotal b = (inject_Z (colorCount b) * colorUnitPrice b)%Q)) /\
    (colorCount b + swCount b <= 0 ->
       swSurcharge b = 0%Q /\ colorSurcharge b = 0%Q /\
       swTotal b = 0%Q /\ colorTotal b = 0%Q).
Proof.
  intros p cp n a3 b colorFlat swFlat colorSmall swSmall.
  split.
  { intros Hp Hn.
    destruct (counts_of_breakdown p cp n a3) as [Hsw Hcol].
    destruct (countImpressions_pos p cp Hp) as [Hb [Hc Hsum]].
    fold b in Hsw, Hcol. rewrite Hsw, Hcol. nia. }
  subst b colorFlat swFlat colorSmall swSmall.
  open_breakdown p cp.
  destruct (col * n + bw * n >? 0) eqn:Htot;
    [ destruct ((col * n >? 0) && ((if a3 then col * n * 2 else col * n) <? 50))
        eqn:Hcs;
      [| destruct ((col * n =? 0) && ((if a3 then bw * n * 2 else bw * n) <? 50))
           eqn:Hss ] |];
    cbn [swCount effectiveSwCount swUnitPrice swSurcharge swTotal colorCount
         effectiveColorCount colorUnitPrice colorSurcharge colorTotal];
    rewrite ?andb_true_iff, ?andb_false_iff, ?Z.gtb_ltb, ?Z.ltb_lt, ?Z.ltb_ge,
      ?Z.eqb_eq, ?Z.eqb_neq in *;
    repeat split; intros; try reflexivity; try (exfalso; lia).
Qed.

Lemma surcharge_policy_witness :
  let b := calculateBrochureBreakdown 4 [1] 1 false in
  colorSurcharge b = 1.2%Q /\ swSurcharge b = 0%Q /\
  colorTotal b = (1.2 + inject_Z (colorCount b - 1) * colorUnitPrice b)%Q /\
  swTotal b = (inject_Z (swCount b) * swUnitPrice b)%Q.
Proof.
  pose proof (surcharge_policy 4 [1] 1 false) as H. cbv zeta in H.
  destruct H as [_ [H _]].
  destruct (H ltac:(reflexivity)) as [Hcolor _].
  apply Hcolor. split; reflexivity.
Defined.

(** ** Tier tables *)

(** A table whose prices never rise along the scan, with a catch-all tier at
    the end, gives a lookup that never rises with the quantity.  Stated on
    the scan, then used for the monochrome table. *)
Lemma getPrice_bwTiers_cases (q : Z) :
  (1000 <= q /\ getPrice bwTiers q = 0.04%Q) \/
  (500 <= q < 1000 /\ getPrice bwTiers q = 0.05%Q) \/
  (250 <= q < 500 /\ getPrice bwTiers q = 0.06%Q) \/
  (100 <= q < 250 /\ getPrice bwTiers q = 0.07%Q) \/
  (50 <= q < 100 /\ getPrice bwTiers q = 0.09%Q) \/
  (q < 50 /\ getPrice bwTiers q = 0.1%Q).
Proof.
  unfold getPrice, bwTiers, firstTier. cbn [min price last].
  repeat match goal with
         | |- context [?a >=? ?b] =>
             destruct (Z.geb_spec a b); [ solve [ intuition lia ] |]
         end.
  intuition lia.
Qed.

Lemma getPrice_colorTiers_cases (q : Z) :
  (5000 <= q /\ getPrice colorTiers q = 0.38%Q) \/
  (1000 <= q < 5000 /\ getPrice colorTiers q = 0.18%Q) \/
  (500 <= q < 1000 /\ getPrice colorTiers q = 0.28%Q) \/
  (250 <= q < 500 /\ getPrice colorTiers q = 0.35%Q) \/
  (100 <= q < 250 /\ getPrice colorTiers q = 0.43%Q) \/
  (50 <= q < 100 /\ getPrice colorTiers q = 0.69%Q) \/
  (q < 50 /\ getPrice colorTiers q = 0.84%Q).
Proof.
  unfold getPrice, colorTiers, firstTier. cbn [min price last].
  repeat match goal with
         | |- context [?a >=? ?b] =>
             destruct (Z.geb_spec a b); [ solve [ intuition lia ] |]
         end.
  intuition lia.
Qed.

Ltac by_tier_cases :=
  repeat match goal with
         | H : _ \/ _ |- _ => destruct H
         | H : _ /\ _ |- _ => destruct H
         end;
  try (exfalso; lia);
  match goal with
  | H1 : getPrice _ _ = _, H2 : getPrice _ _ = _ |- _ => rewrite H1, H2
  end;
  unfold Qle; simpl; lia.

(** The monochrome table is non-increasing in the quantity. *)
Lemma getPrice_bwTiers_antitone (q1 q2 : Z) :
  q1 <= q2 -> (getPrice bwTiers q2 <= getPrice bwTiers q1)%Q.
Proof.
  intros Hq.
  pose proof (getPrice_bwTiers_cases q1) as H1.
  pose proof (getPrice_bwTiers_cases q2) as H2.
  by_tier_cases.
Qed.

(** The color table is non-increasing below its top tier. *)
Lemma getPrice_colorTiers_antitone_below_5000 (q1 q2 : Z) :
  q1 <= q2 -> q2 < 5000 ->
  (getPrice colorTiers q2 <= getPrice colorTiers q1)%Q.
Proof.
  intros Hq Htop.
  pose proof (getPrice_colorTiers_cases q1) as H1.
  pose proof (getPrice_colorTiers_cases q2) as H2.
  by_tier_cases.
Qed.

(** C3. Tier monotonicity holds for the monochrome table and fails for the
    color table at its top tier: the unit price at quantity 5000 (0.38) is
    higher than at quantity 1000 (0.18).  The engine reaches both lookups:
    500 and 2500 copies of a 4-page brochure with color pages 1 and 2 have
    1000 and 5000 color impressions. *)
Theorem colorTiers_price_rises_at_5000 :
  1000 <= 5000 /\
  getPrice colorTiers 1000 = 0.18%Q /\
  getPrice colorTiers 5000 = 0.38%Q /\
  (getPrice colorTiers 1000 < getPrice colorTiers 5000)%Q /\
  ~ (forall q1 q2, q1 <= q2 ->
       (getPrice colorTiers q2 <= getPrice colorTiers q1)%Q) /\
  (let few := calculateBrochureBreakdown 4 [1; 2] 500 false in
   let many := calculateBrochureBreakdown 4 [1; 2] 2500 false in
   effectiveColorCount few = 1000 /\ effectiveColorCount many = 5000 /\
   (colorUnitPrice few < colorUnitPrice many)%Q).
Proof.
  split; [lia |]. split; [reflexivity |]. split; [reflexivity |].
  split; [reflexivity |]. split.
  - intros Hmono. specialize (Hmono 1000 5000 ltac:(lia)).
    revert Hmono. unfold Qle. simpl. lia.
  - cbv zeta. repeat split; reflexivity.
Qed.

(** ** Paper size *)

(** The fields of the A3 breakdown against those of the A4 breakdown of the
    same job. *)
Lemma a3_against_a4 :
  forall (pagesPerBrochure : Z) (colorPages : list Z) (brochureCount : Z),
    let a4 := calculateBrochureBreakdown pagesPerBrochure colorPages
                brochureCount false in
    let a3 := calculateBrochureBreakdown pagesPerBrochure colorPages
                brochureCount true in
    (swCount a3 = swCount a4 /\ colorCount a3 = colorCount a4) /\
    (effectiveSwCount a3 = 2 * effectiveSwCount a4 /\
     effectiveColorCount a3 = 2 * effectiveColorCount a4) /\
    (swUnitPrice a4 == getPrice bwTiers (effectiveSwCount a4) /\
     colorUnitPrice a4 == getPrice colorTiers (effectiveColorCount a4))%Q /\
    (swUnitPrice a3 == 2 * getPrice bwTiers (2 * effectiveSwCount a4) /\
     colorUnitPrice a3 == 2 * getPrice colorTiers (2 * effectiveColorCount a4))%Q /\
    (swSurcharge a3
     == if effectiveSwCount a3 <? 50 then 2 * swSurcharge a4 else 0)%Q /\
    (colorSurcharge a3
     == if effectiveColorCount a3 <? 50 then 2 * colorSurcharge a4 else 0)%Q.
Proof.
  intros p cp n a4 a3. subst a4 a3.
  open_breakdown p cp.
  replace (2 * effectiveSwCount _) with (bw * n * 2)
    by (split_tests; cbn [effectiveSwCount]; lia).
  replace (2 * effectiveColorCount _) with (col * n * 2)
    by (split_tests; cbn [effectiveColorCount]; lia).
  destruct (Z.gtb_spec (col * n + bw * n) 0),
    (Z.ltb_spec (bw * n * 2) 50), (Z.ltb_spec (bw * n) 50),
    (Z.ltb_spec (col * n * 2) 50), (Z.ltb_spec (col * n) 50),
    (Z.gtb_spec (col * n) 0), (Z.eqb_spec (col * n) 0);
    try (exfalso; lia);
    cbn [andb swCount effectiveSwCount swUnitPrice swSurcharge swTotal
         colorCount effectiveColorCount colorUnitPrice colorSurcharge
         colorTotal];
    repeat split;
    try reflexivity; try apply Qmult_1_r; try apply Qmult_comm.
  all: match goal with |- context [?a <? ?b] => destruct (Z.ltb_spec a b) end;
    try reflexivity; exfalso; lia.
Qed.

(** C4, as the code has it.  With the same pagesPerBrochure, colorPages and
    brochureCount, the A3 breakdown has the raw counts of the A4 breakdown
    and effective counts exactly double; each A3 unit price is exactly double
    the table price looked up at the doubled effective count, hence double
    the A4 unit price exactly when the table gives the doubled count the
    price of the undoubled one; each A3 surcharge is exactly double the A4
    surcharge when the doubled effective count of its category is below 50,
    and 0 otherwise. *)
Theorem a3_doubles_counts_and_rates :
  forall (pagesPerBrochure : Z) (colorPages : list Z) (brochureCount : Z),
    let a4 := calculateBrochureBreakdown pagesPerBrochure colorPages
                brochureCount false in
    let a3 := calculateBrochureBreakdown pagesPerBrochure colorPages
                brochureCount true in
    (swCount a3 = swCount a4 /\ colorCount a3 = colorCount a4) /\
    (effectiveSwCount a3 = 2 * effectiveSwCount a4 /\
     effectiveColorCount a3 = 2 * effectiveColorCount a4) /\
    (swUnitPrice a3 == 2 * getPrice bwTiers (effectiveSwCount a3) /\
     colorUnitPrice a3 == 2 * getPrice colorTiers (effectiveColorCount a3))%Q /\
    ((swUnitPrice a3 == 2 * swUnitPrice a4)%Q <->
     (getPrice bwTiers (2 * effectiveSwCount a4)
      == getPrice bwTiers (effectiveSwCount a4))%Q) /\
    ((colorUnitPrice a3 == 2 * colorUnitPrice a4)%Q <->
     (getPrice colorTiers (2 * effectiveColorCount a4)
      == getPrice colorTiers (effectiveColorCount a4))%Q) /\
    (swSurcharge a3
     == if effectiveSwCount a3 <? 50 then 2 * swSurcharge a4 else 0)%Q /\
    (colorSurcharge a3
     == if effectiveColorCount a3 <? 50 then 2 * colorSurcharge a4 else 0)%Q.
Proof.
  intros p cp n a4 a3.
  destruct (a3_against_a4 p cp n)
    as [Hraw [[Hsw Hcol] [[Hu4s Hu4c] [[Hu3s Hu3c] [Hss Hsc]]]]].
  fold a4 a3 in Hraw, Hsw, Hcol, Hu4s, Hu4c, Hu3s, Hu3c, Hss, Hsc.
  assert (Htwo : ~ (2 == 0)%Q) by discriminate.
  split; [exact Hraw |]. split; [split; assumption |].
  split; [rewrite Hsw, Hcol; split; assumption |].
  split; [rewrite Hu3s, Hu4s; apply Qmult_inj_l; exact Htwo |].
  split; [rewrite Hu3c, Hu4c; apply Qmult_inj_l; exact Htwo |].
  split; assumption.
Qed.

(** C4 as stated fails: 15 copies of a 4-page monochrome brochure give 30
    impressions; at A4 the unit price is 0.10 with a surcharge of 0.45, at A3
    the effective count 60 falls in the next tier, the unit price is
    2 * 0.09 = 0.18 and no surcharge applies. *)
Lemma a3_not_double_counterexample :
  let a4 := calculateBrochureBreakdown 4 [] 15 false in
  let a3 := calculateBrochureBreakdown 4 [] 15 true in
  effectiveSwCount a3 = 2 * effectiveSwCount a4 /\
  swUnitPrice a4 == 0.1 /\ swUnitPrice a3 == 0.18 /\
  swSurcharge a4 == 0.45 /\ swSurcharge a3 == 0 /\
  ~ (swUnitPrice a3 == 2 * swUnitPrice a4) /\
  ~ (swSurcharge a3 == 2 * swSurcharge a4).
Proof.
  cbv zeta. repeat split; try reflexivity; intros H; vm_compute in H; discriminate.
Qed.

(** ** Totals *)

(** C5. The breakdown is a function of its four arguments, and its grand
    total is the sum of the monochrome subtotal, the color subtotal and the
    binding cost, added in that order. *)
Theorem totalCost_is_sum :
  forall (pagesPerBrochure : Z) (colorPages : list Z) (brochureCount : Z)
         (isA3 : bool),
    let b := calculateBrochureBreakdown pagesPerBrochure colorPages
               brochureCount isA3 in
    (forall b', b' = calculateBrochureBreakdown pagesPerBrochure colorPages
                       brochureCount isA3 -> b' = b) /\
    totalCost b = (swTotal b + colorTotal b + bindingCost b)%Q.
Proof.
  intros p cp n a3 b. split; [intros b' ->; reflexivity |].
  subst b. open_breakdown p cp.
  destruct (col * n + bw * n >? 0);
    [ destruct ((col * n >? 0) && ((if a3 then col * n * 2 else col * n) <? 50));
      [| destruct ((col * n =? 0) && ((if a3 then bw * n * 2 else bw * n) <? 50)) ]
    |]; reflexivity.
Qed.

(** Scenarios 1 and 4 of the specification. *)
Example scenario_1 :
  let b := calculateBrochureBreakdown 8 [] 1 false in
  swCount b = 4 /\ colorCount b = 0 /\ (swTotal b == 0.75)%Q /\
  (bindingCost b == 0.18)%Q /\ (totalCost b == 0.93)%Q.
Proof. cbv zeta. repeat split; reflexivity. Qed.

Example scenario_4 :
  let b := calculateBrochureBreakdown 4 [1] 1 false in
  swCount b = 1 /\ colorCount b = 1 /\ (colorTotal b == 1.2)%Q /\
  (swTotal b == 0.1)%Q /\ bindingCount b = 0 /\ (totalCost b == 1.3)%Q.
Proof. cbv zeta. repeat split; reflexivity. Qed.

(** C6. No breakdown has both swSurcharge > 0 and colorSurcharge > 0. *)
Theorem surcharges_exclusive :
  forall (pagesPerBrochure : Z) (colorPages : list Z) (brochureCount : Z)
         (isA3 : bool),
    let b := calculateBrochureBreakdown pagesPerBrochure colorPages
               brochureCount isA3 in
    ~ ((0 < swSurcharge b)%Q /\ (0 < colorSurcharge b)%Q).
Proof.
  intros p cp n a3 b [Hsw Hcol]. subst b. revert Hsw Hcol.
  open_breakdown p cp.
  destruct (col * n + bw * n >? 0);
    [ destruct ((col * n >? 0) && ((if a3 then col * n * 2 else col * n) <? 50));
      [| destruct ((col * n =? 0) && ((if a3 then bw * n * 2 else bw * n) <? 50)) ]
    |];
    cbn [swSurcharge colorSurcharge]; unfold Qlt; simpl; lia.
Qed.

(** ** Strings: pieces, trimming, parsing of integers *)

Lemma includesChar_In (s : JsString) (c : CodeUnit) :
  includesChar s c = true <-> In c s.
Proof.
  unfold includesChar. rewrite existsb_exists. split.
  - intros [x [Hin Heq]]. apply N.eqb_eq in Heq. now subst.
  - intros Hin. exists c. split; [assumption | apply N.eqb_refl].
Qed.

Lemma includesChar_false (s : JsString) (c : CodeUnit) :
  includesChar s c = false <-> ~ In c s.
Proof.
  rewrite <- includesChar_In.
  destruct (includesChar s c); split; intros H; try congruence;
    exfalso; now apply H.
Qed.

Lemma split_length (sep : CodeUnit) (s : JsString) :
  List.length (split sep s) = S (countChar sep s).
Proof.
  unfold countChar. induction s as [| c rest IH]; [reflexivity |].
  cbn [split filter]. rewrite (N.eqb_sym sep c).
  destruct (c =? sep)%N.
  - cbn [List.length]. now rewrite IH.
  - destruct (split sep rest); cbn [List.length] in *; [discriminate | exact IH].
Qed.

Lemma split_pieces_no_sep (sep : CodeUnit) (s : JsString) :
  Forall (fun piece => ~ In sep piece) (split sep s).
Proof.
  induction s as [| c rest IH]; cbn [split].
  - constructor; [intros [] | constructor].
  - destruct (N.eqb_spec c sep) as [-> | Hne].
    + constructor; [intros [] | exact IH].
    + destruct (split sep rest) as [| piece pieces].
      * constructor; [| constructor]. intros [H | []]. congruence.
      * inversion IH as [| ? ? Hpiece Hpieces]; subst.
        constructor; [| assumption].
        intros [H | H]; [congruence | contradiction].
Qed.

Lemma dropWhile_incl {A : Type} (f : A -> bool) (xs : list A) (x : A) :
  In x (dropWhile f xs) -> In x xs.
Proof.
  induction xs as [| y rest IH]; cbn [dropWhile]; [tauto |].
  destruct (f y); [intros H; right; now apply IH | tauto].
Qed.

Lemma takeWhile_Forall {A : Type} (f : A -> bool) (xs : list A) :
  Forall (fun x => f x = true) (takeWhile f xs).
Proof.
  induction xs as [| y rest IH]; cbn [takeWhile]; [constructor |].
  destruct (f y) eqn:E; [constructor; assumption | constructor].
Qed.

Lemma trim_incl (s : JsString) (c : CodeUnit) : In c (trim s) -> In c s.
Proof.
  unfold trim. intros H. apply in_rev in H. apply dropWhile_incl in H.
  apply in_rev in H. now apply dropWhile_incl in H.
Qed.

Lemma digitsValue_nonneg (ds : JsString) :
  Forall (fun c => isDigit c = true) ds -> 0 <= digitsValue ds.
Proof.
  intros Hds. unfold digitsValue.
  assert (Hgen : forall acc, 0 <= acc ->
            0 <= fold_left (fun a c => 10 * a + digitValue c) ds acc).
  { induction Hds as [| c rest Hc Hrest IH]; intros acc Hacc; [exact Hacc |].
    cbn [fold_left]. apply IH.
    unfold isDigit in Hc. apply andb_true_iff in Hc as [Hlo Hhi].
    apply N.leb_le in Hlo. unfold digitValue. lia. }
  apply Hgen. lia.
Qed.

Lemma parseInt_nonneg (s : JsString) (n : Z) :
  ~ In hyphen s -> parseInt s = Some n -> 0 <= n.
Proof.
  intros Hno. unfold parseInt.
  assert (Hdigits : forall rest ds,
            takeWhile isDigit rest = ds -> 0 <= 1 * digitsValue ds).
  { intros rest ds <-. pose proof (digitsValue_nonneg _ (takeWhile_Forall isDigit rest)).
    lia. }
  destruct (dropWhile isSpace s) as [| c rest] eqn:Hs.
  - cbn [takeWhile]. discriminate.
  - destruct (N.eqb_spec c hyphen) as [-> | Hc].
    + exfalso. apply Hno. apply (dropWhile_incl isSpace). rewrite Hs. now left.
    + destruct (c =? plus)%N.
      * destruct (takeWhile isDigit rest) eqn:E; [discriminate |].
        intros [= <-]. now apply (Hdigits rest).
      * destruct (takeWhile isDigit (c :: rest)) eqn:E; [discriminate |].
        intros [= <-]. now apply (Hdigits (c :: rest)).
Qed.

(** ** The parser: the set, the range loop, the token loop *)

Lemma setAdd_In (x y : Z) (resultSet : list Z) :
  In y (setAdd x resultSet) <-> y = x \/ In y resultSet.
Proof.
  unfold setAdd. destruct (includes resultSet x) eqn:E.
  - apply includes_In in E. split; [tauto | intros [-> | H]; assumption].
  - rewrite in_app_iff. simpl. intuition congruence.
Qed.

Lemma setAdd_NoDup (x : Z) (resultSet : list Z) :
  NoDup resultSet -> NoDup (setAdd x resultSet).
Proof.
  intros Hnd. unfold setAdd. destruct (includes resultSet x) eqn:E; [assumption |].
  assert (Hx : ~ In x resultSet).
  { intros Hin. apply includes_In in Hin. congruence. }
  clear E. induction Hnd as [| y l Hy Hl IH]; simpl.
  - constructor; [intros [] | constructor].
  - constructor.
    + rewrite in_app_iff. simpl. intros [H | [H | []]]; [contradiction |].
      apply Hx. now left.
    + apply IH. intros H. apply Hx. now right.
Qed.

Lemma setAdd_wellFormed (maxPage x : Z) (resultSet : list Z) :
  0 <= x <= maxPage -> wellFormed maxPage resultSet ->
  wellFormed maxPage (setAdd x resultSet).
Proof.
  intros Hx [Hall Hnd]. split; [| now apply setAdd_NoDup].
  apply Forall_forall. intros y Hy. apply setAdd_In in Hy as [-> | Hy];
    [assumption |].
  rewrite Forall_forall in Hall. now apply Hall.
Qed.

(** The range loop never reports an invalid range. *)
Lemma rangeLoop_error (trips : nat) :
  forall i maxPage resultSet e,
    rangeLoop trips i maxPage resultSet = inl e ->
    exists v, e = PageOutOfBounds v maxPage.
Proof.
  induction trips as [| trips IH]; intros i maxPage resultSet e; cbn [rangeLoop].
  - discriminate.
  - destruct (i >? maxPage).
    + intros [= <-]. now exists i.
    + apply IH.
Qed.

(** A range that ends beyond [maxPage] stops at its first value beyond
    [maxPage], whatever the set holds. *)
Lemma rangeLoop_out_of_bounds (trips : nat) :
  forall i maxPage resultSet,
    (0 < trips)%nat -> maxPage < i + Z.of_nat trips - 1 ->
    rangeLoop trips i maxPage resultSet
    = inl (PageOutOfBounds (Z.max i (maxPage + 1)) maxPage).
Proof.
  induction trips as [| trips IH]; intros i maxPage resultSet Hpos Hend; [lia |].
  cbn [rangeLoop]. destruct (Z.gtb_spec i maxPage) as [Hi | Hi].
  - do 2 f_equal. lia.
  - rewrite IH by lia. do 2 f_equal. lia.
Qed.

(** A range within [maxPage] adds each of its values. *)
Lemma rangeLoop_within (trips : nat) :
  forall i maxPage resultSet,
    i + Z.of_nat trips - 1 <= maxPage ->
    exists resultSet',
      rangeLoop trips i maxPage resultSet = inr resultSet' /\
      (forall x, In x resultSet' <->
                 In x resultSet \/ i <= x < i + Z.of_nat trips) /\
      (NoDup resultSet -> NoDup resultSet').
Proof.
  induction trips as [| trips IH]; intros i maxPage resultSet Hend.
  - exists resultSet. split; [reflexivity |]. split; [| tauto].
    intros x. split; [tauto | intros [H | H]; [assumption | lia]].
  - cbn [rangeLoop]. destruct (Z.gtb_spec i maxPage) as [Hi | Hi]; [lia |].
    destruct (IH (i + 1) maxPage (setAdd i resultSet) ltac:(lia))
      as [resultSet' [Hrun [Hin Hnd]]].
    exists resultSet'. split; [exact Hrun |]. split.
    + intros x. rewrite Hin, setAdd_In.
      replace (Z.of_nat (S trips)) with (Z.of_nat trips + 1) by lia.
      intuition lia.
    + intros H. apply Hnd. now apply setAdd_NoDup.
Qed.

Lemma rangeLoop_wellFormed (trips : nat) :
  forall i maxPage resultSet resultSet',
    0 <= i -> wellFormed maxPage resultSet ->
    rangeLoop trips i maxPage resultSet = inr resultSet' ->
    wellFormed maxPage resultSet'.
Proof.
  induction trips as [| trips IH]; intros i maxPage resultSet resultSet' Hi Hwf;
    cbn [rangeLoop].
  - now intros [= <-].
  - destruct (Z.gtb_spec i maxPage) as [Hgt | Hle]; [discriminate |].
    apply IH; [lia |]. apply setAdd_wellFormed; [lia | assumption].
Qed.

Lemma rangeEnds_start_nonneg (token : JsString) (start : Z) (end_ : option Z) :
  rangeEnds token = (Some start, end_) -> 0 <= start.
Proof.
  unfold rangeEnds. pose proof (split_pieces_no_sep hyphen token) as Hno.
  destruct (split hyphen token) as [| p1 [| p2 rest]]; cbn [map].
  - discriminate.
  - inversion Hno as [| ? ? H1 _]; subst. intros [= Hs _].
    apply (parseInt_nonneg (trim p1)); [| assumption].
    intros H. apply H1. now apply trim_incl.
  - inversion Hno as [| ? ? H1 _]; subst. intros [= Hs _].
    apply (parseInt_nonneg (trim p1)); [| assumption].
    intros H. apply H1. now apply trim_incl.
Qed.

Lemma tokenStep_wellFormed (maxPage : Z) (token : JsString)
    (resultSet resultSet' : list Z) :
  wellFormed maxPage resultSet ->
  tokenStep maxPage token resultSet = inr resultSet' ->
  wellFormed maxPage resultSet'.
Proof.
  intros Hwf. unfold tokenStep.
  destruct (includesChar token hyphen) eqn:Hh.
  - destruct (rangeEnds token) as [[start |] [end_ |]] eqn:Hends;
      try discriminate.
    destruct (start >? end_); [discriminate |].
    unfold addRange. apply rangeLoop_wellFormed; [| assumption].
    now apply (rangeEnds_start_nonneg token start (Some end_)).
  - destruct (parseInt token) as [num |] eqn:Hnum.
    + destruct (Z.gtb_spec num maxPage); [discriminate |].
      intros [= <-]. apply setAdd_wellFormed; [| assumption].
      split; [| assumption].
      apply (parseInt_nonneg token); [| assumption].
      now apply includesChar_false.
    + now intros [= <-].
Qed.

Lemma tokenLoop_wellFormed (maxPage : Z) (tokens : list JsString) :
  forall resultSet resultSet',
    wellFormed maxPage resultSet ->
    tokenLoop maxPage tokens resultSet = inr resultSet' ->
    wellFormed maxPage resultSet'.
Proof.
  induction tokens as [| token rest IH]; intros resultSet resultSet' Hwf;
    cbn [tokenLoop].
  - now intros [= <-].
  - destruct (tokenStep maxPage token resultSet) as [e | mid] eqn:Hstep;
      [discriminate |].
    apply IH. now apply (tokenStep_wellFormed maxPage token resultSet).
Qed.

Lemma tokenLoop_app (maxPage : Z) (pre post : list JsString) :
  forall resultSet,
    tokenLoop maxPage (pre ++ post) resultSet
    = match tokenLoop maxPage pre resultSet with
      | inl e => inl e
      | inr mid => tokenLoop maxPage post mid
      end.
Proof.
  induction pre as [| token rest IH]; intros resultSet; [reflexivity |].
  cbn [app tokenLoop].
  destruct (tokenStep maxPage token resultSet); [reflexivity | apply IH].
Qed.

(** Parser errors short-circuit: an error never comes with pages. *)
Lemma parseColorPages_error_no_pages (input : JsString) (maxPage : Z) :
  error (parseColorPages input maxPage) <> None ->
  pages (parseColorPages input maxPage) = [].
Proof.
  unfold parseColorPages. destruct (negb (onlyAllowedChars input)); [reflexivity |].
  destruct (tokenLoop maxPage (tokensOf input) []); simpl; [reflexivity |].
  intros H. now contradiction H.
Qed.

(** ** The parser: claims *)

(** C7. When the token loop reaches a range token start-end with
    start <= end and end > maxPage, parsing stops at the first value of
    [start, end] that exceeds maxPage: the result is the PageOutOfBounds
    error citing that value and maxPage, with an empty page list, whatever
    tokens follow (so parse("7-19", 8) cites 9 and 8). *)
Theorem range_out_of_bounds_aborts :
  forall (input : JsString) (maxPage : Z) (pre : list JsString)
         (token : JsString) (post : list JsString) (resultSet : list Z)
         (start end_ : Z),
    onlyAllowedChars input = true ->
    tokensOf input = pre ++ token :: post ->
    tokenLoop maxPage pre [] = inr resultSet ->
    includesChar token hyphen = true ->
    rangeEnds token = (Some start, Some end_) ->
    start <= end_ -> maxPage < end_ ->
    let value := Z.max start (maxPage + 1) in
    (start <= value <= end_ /\ maxPage < value /\
     (forall i, start <= i < value -> i <= maxPage)) /\
    tokenStep maxPage token resultSet = inl (PageOutOfBounds value maxPage) /\
    parseColorPages input maxPage
    = {| pages := []; error := Some (PageOutOfBounds value maxPage) |}.
Proof.
  intros input maxPage pre token post resultSet start end_
         Hchars Htokens Hpre Hrange Hends Horder Hbound value.
  assert (Hstep : tokenStep maxPage token resultSet
                  = inl (PageOutOfBounds value maxPage)).
  { unfold tokenStep. rewrite Hrange, Hends.
    destruct (Z.gtb_spec start end_) as [Hgt | _]; [lia |].
    unfold addRange. apply rangeLoop_out_of_bounds; lia. }
  split; [subst value; repeat split; lia |].
  split; [exact Hstep |].
  unfold parseColorPages. rewrite Hchars. cbn [negb].
  rewrite Htokens, tokenLoop_app, Hpre. cbn [tokenLoop]. rewrite Hstep.
  reflexivity.
Qed.

Lemma range_out_of_bounds_witness :
  parseColorPages (js "7-19") 8
  = {| pages := []; error := Some (PageOutOfBounds 9 8) |}.
Proof.
  apply (range_out_of_bounds_aborts (js "7-19") 8 [] (js "7-19") [] [] 7 19);
    try reflexivity; lia.
Defined.

(** The abort does not depend on what was parsed before or what follows. *)
Example range_out_of_bounds_amid_tokens :
  parseColorPages (js "2, 7-19, 40") 8
  = {| pages := []; error := Some (PageOutOfBounds 9 8) |}.
Proof.
  apply (range_out_of_bounds_aborts (js "2, 7-19, 40") 8
           [js "2"] (js "7-19") [js "40"] [2] 7 19);
    try reflexivity; lia.
Qed.

(** C8, as the code has it.  When parsing succeeds, every returned page is
    an integer >= 0 and <= maxPage, and no page is listed twice. *)
Theorem parsed_pages_within_bounds :
  forall (input : JsString) (maxPage : Z),
    error (parseColorPages input maxPage) = None ->
    (forall x, In x (pages (parseColorPages input maxPage)) ->
               0 <= x <= maxPage) /\
    NoDup (pages (parseColorPages input maxPage)).
Proof.
  intros input maxPage. unfold parseColorPages.
  destruct (negb (onlyAllowedChars input)); [discriminate |].
  destruct (tokenLoop maxPage (tokensOf input) []) as [e | resultSet] eqn:Hloop;
    [discriminate |].
  intros _. cbn [toResult pages].
  assert (Hwf : wellFormed maxPage resultSet).
  { apply (tokenLoop_wellFormed maxPage (tokensOf input) [] resultSet);
      [| assumption].
    split; constructor. }
  destruct Hwf as [Hall Hnd]. split; [| assumption].
  now apply Forall_forall.
Qed.

Lemma parsed_pages_within_bounds_witness :
  pages (parseColorPages (js "1, 3-5, 7") 10) = [1; 3; 4; 5; 7] /\
  (forall x, In x (pages (parseColorPages (js "1, 3-5, 7") 10)) ->
             0 <= x <= 10) /\
  NoDup (pages (parseColorPages (js "1, 3-5, 7") 10)).
Proof.
  split; [reflexivity |].
  apply (parsed_pages_within_bounds (js "1, 3-5, 7") 10). reflexivity.
Defined.

(** C8 as stated fails: page 0 is accepted. *)
Lemma page_zero_counterexample :
  1 <= 8 /\
  parseColorPages (js "0") 8 = {| pages := [0]; error := None |} /\
  ~ (forall x, In x (pages (parseColorPages (js "0") 8)) -> 1 <= x <= 8).
Proof.
  split; [lia |]. split; [reflexivity |].
  intros H. specialize (H 0 ltac:(now left)). lia.
Qed.

(** C9, as the code has it.  A token with two or more hyphens is read as the
    range between its first two hyphen-separated parts, the later parts
    being ignored: when those two parts parse to start <= end the token is
    handled exactly as that range and no InvalidRange error is reported for
    it, and the parse continues with the tokens that follow. *)
Theorem extra_hyphen_parts_ignored :
  forall (token : JsString) (maxPage : Z) (resultSet : list Z)
         (p1 p2 p3 : JsString) (rest : list JsString) (start end_ : Z),
    split hyphen token = p1 :: p2 :: p3 :: rest ->
    parseInt (trim p1) = Some start ->
    parseInt (trim p2) = Some end_ ->
    start <= end_ ->
    (2 <= countChar hyphen token)%nat /\
    tokenStep maxPage token resultSet = addRange start end_ maxPage resultSet /\
    (forall t, tokenStep maxPage token resultSet <> inl (InvalidRange t)) /\
    (forall input pre post,
       onlyAllowedChars input = true ->
       tokensOf input = pre ++ token :: post ->
       tokenLoop maxPage pre [] = inr resultSet ->
       parseColorPages input maxPage
       = toResult match addRange start end_ maxPage resultSet with
                  | inl e => inl e
                  | inr resultSet' => tokenLoop maxPage post resultSet'
                  end).
Proof.
  intros token maxPage resultSet p1 p2 p3 rest start end_ Hsplit Hs He Horder.
  assert (Hcount : (2 <= countChar hyphen token)%nat).
  { pose proof (split_length hyphen token) as Hlen. rewrite Hsplit in Hlen.
    cbn [List.length] in Hlen. lia. }
  assert (Hinc : includesChar token hyphen = true).
  { apply includesChar_In. unfold countChar in Hcount.
    destruct (filter (N.eqb hyphen) token) as [| c l] eqn:E;
      [cbn [List.length] in Hcount; lia |].
    assert (Hc : In c (filter (N.eqb hyphen) token)) by (rewrite E; now left).
    apply filter_In in Hc as [Hin Heq]. apply N.eqb_eq in Heq. now subst. }
  assert (Hstep : tokenStep maxPage token resultSet
                  = addRange start end_ maxPage resultSet).
  { unfold tokenStep, rangeEnds. rewrite Hinc, Hsplit. cbn [map]. rewrite Hs, He.
    destruct (Z.gtb_spec start end_); [lia | reflexivity]. }
  split; [exact Hcount |]. split; [exact Hstep |]. split.
  - intros t Ht. rewrite Hstep in Ht. unfold addRange in Ht.
    apply rangeLoop_error in Ht as [v Hv]. discriminate.
  - intros input pre post Hchars Htokens Hpre.
    unfold parseColorPages. rewrite Hchars. cbn [negb].
    rewrite Htokens, tokenLoop_app, Hpre. cbn [tokenLoop]. rewrite Hstep.
    reflexivity.
Qed.

Lemma extra_hyphen_parts_witness :
  parseColorPages (js "1-3-5") 10 = {| pages := [1; 2; 3]; error := None |}.
Proof.
  destruct (extra_hyphen_parts_ignored (js "1-3-5") 10 []
              (js "1") (js "3") (js "5") [] 1 3
              ltac:(reflexivity) ltac:(reflexivity) ltac:(reflexivity)
              ltac:(lia))
    as [_ [_ [_ Hparse]]].
  rewrite (Hparse (js "1-3-5") [] [] ltac:(reflexivity) ltac:(reflexivity)
             ltac:(reflexivity)).
  reflexivity.
Defined.

(** C9 as stated fails: a token with two hyphens whose first part exceeds
    its second is reported as an invalid range. *)
Lemma reversed_multi_hyphen_counterexample :
  (2 <= countChar hyphen (js "3-1-5"))%nat /\
  parseColorPages (js "3-1-5") 10
  = {| pages := []; error := Some (InvalidRange (js "3-1-5")) |}.
Proof.
  split; [vm_compute; lia | reflexivity].
Qed.

(** * Further properties of the code *)

(** ** Imposition: every page has one slot *)

Lemma slots_of_sheets_length (totalPages : Z) (js : list Z) :
  List.length (List.concat (flat_map (impressionsOf totalPages) js))
  = (4 * List.length js)%nat.
Proof.
  induction js as [| j rest IH]; [reflexivity |].
  cbn [flat_map impressionsOf app List.concat List.length] in *. lia.
Qed.

Lemma slotsVisited_In (p x : Z) :
  In x (slotsVisited p) <->
  exists j, 0 <= j < sheetsOf p /\
            (x = totalPagesOf p - 2 * j \/ x = 1 + 2 * j \/
             x = 2 + 2 * j \/ x = totalPagesOf p - (2 * j + 1)).
Proof.
  unfold slotsVisited. cbv zeta.
  change (totalPagesOf p / 4) with (sheetsOf p). rewrite in_concat. split.
  - intros [pair [Hpair Hx]]. apply in_flat_map in Hpair as [j [Hj Hpair]].
    exists j. split; [now apply sheetIndices_In |].
    unfold impressionsOf in Hpair. cbv zeta in Hpair. cbn [In] in Hpair.
    destruct Hpair as [<- | [<- | []]]; cbn [In] in Hx; intuition lia.
  - intros [j [Hj Hx]].
    destruct Hx as [-> | [-> | [-> | ->]]].
    + exists [totalPagesOf p - 2 * j; 1 + 2 * j]. split; [| now left].
      apply in_flat_map. exists j. split; [now apply sheetIndices_In | now left].
    + exists [totalPagesOf p - 2 * j; 1 + 2 * j]. split; [| right; now left].
      apply in_flat_map. exists j. split; [now apply sheetIndices_In | now left].
    + exists [2 + 2 * j; totalPagesOf p - (2 * j + 1)]. split; [| now left].
      apply in_flat_map. exists j.
      split; [now apply sheetIndices_In | right; now left].
    + exists [2 + 2 * j; totalPagesOf p - (2 * j + 1)]. split; [| right; now left].
      apply in_flat_map. exists j.
      split; [now apply sheetIndices_In | right; now left].
Qed.

Lemma totalPagesOf_sheets (p : Z) : totalPagesOf p = 4 * sheetsOf p.
Proof.
  unfold sheetsOf. pose proof (totalPagesOf_round p) as [Hmod _].
  pose proof (Z.div_mod (totalPagesOf p) 4 ltac:(lia)). lia.
Qed.

Lemma slotsVisited_range (p x : Z) :
  In x (slotsVisited p) <-> 1 <= x <= totalPagesOf p.
Proof.
  rewrite slotsVisited_In. pose proof (totalPagesOf_sheets p) as HT.
  split.
  - intros [j [Hj Hx]]. lia.
  - intros Hx.
    pose proof (Z.div_mod x 2 ltac:(lia)) as Hdm.
    pose proof (Z.mod_pos_bound x 2 ltac:(lia)) as Hr.
    set (q := x / 2) in *. set (r := x mod 2) in *.
    destruct (Z.eq_dec r 0) as [Hr0 | Hr1].
    + destruct (Z_le_gt_dec q (sheetsOf p)).
      * exists (q - 1). lia.
      * exists (2 * sheetsOf p - q). lia.
    + destruct (Z_lt_ge_dec q (sheetsOf p)).
      * exists q. lia.
      * exists (2 * sheetsOf p - q - 1). lia.
Qed.

Lemma slotsVisited_length (p : Z) :
  List.length (slotsVisited p) = Z.to_nat (totalPagesOf p).
Proof.
  unfold slotsVisited. cbv zeta. rewrite slots_of_sheets_length.
  unfold sheetIndices. rewrite length_map, length_seq.
  pose proof (totalPagesOf_sheets p). unfold sheetsOf in *. lia.
Qed.

Lemma slotsVisited_NoDup (p : Z) : NoDup (slotsVisited p).
Proof.
  apply (@NoDup_incl_NoDup Z
           (map Z.of_nat (seq 1 (Z.to_nat (totalPagesOf p))))).
  - apply Injective_map_NoDup; [intros a b; lia | apply seq_NoDup].
  - rewrite slotsVisited_length, length_map, length_seq. lia.
  - intros x Hx. apply in_map_iff in Hx as [k [<- Hk]]. apply in_seq in Hk.
    apply slotsVisited_range. lia.
Qed.

(** X1. The imposition places every logical page once: the slots the loop
    visits are exactly the pages 1 .. totalPages, none of them twice, four
    per sheet. *)
Theorem imposition_places_every_page_once :
  forall (pagesPerBrochure : Z),
    (forall x, In x (slotsVisited pagesPerBrochure)
               <-> 1 <= x <= totalPagesOf pagesPerBrochure) /\
    NoDup (slotsVisited pagesPerBrochure) /\
    Z.of_nat (List.length (slotsVisited pagesPerBrochure))
    = Z.max 0 (totalPagesOf pagesPerBrochure).
Proof.
  intros p. split; [intros x; apply slotsVisited_range |].
  split; [apply slotsVisited_NoDup |].
  rewrite slotsVisited_length. lia.
Qed.

(** ** Imposition: how many impressions are counted *)

Lemma fold_sheetStep_impressions (p : Z) (cp : list Z) (totalPages : Z)
    (js : list Z) :
  forall acc,
    fold_left (sheetStep p cp totalPages) js acc
    = fold_left (countImpression p cp)
        (flat_map (impressionsOf totalPages) js) acc.
Proof.
  induction js as [| j rest IH]; intros acc; [reflexivity |].
  cbn [fold_left flat_map]. rewrite fold_left_app, IH. reflexivity.
Qed.

Lemma impressions_of_sheets_length (totalPages : Z) (js : list Z) :
  List.length (flat_map (impressionsOf totalPages) js)
  = (2 * List.length js)%nat.
Proof.
  induction js as [| j rest IH]; [reflexivity |].
  cbn [flat_map impressionsOf app List.length] in *. lia.
Qed.

(** When every impression of a run has a slot within the page count, each of
    them is counted, in one counter or the other. *)
Lemma fold_countImpression_all_counted (p : Z) (cp : list Z)
    (l : list (list Z)) :
  (forall pair, In pair l -> some (fun q => q <=? p) pair = true) ->
  forall acc,
    fst (fold_left (countImpression p cp) l acc)
    + snd (fold_left (countImpression p cp) l acc)
    = fst acc + snd acc + Z.of_nat (List.length l).
Proof.
  induction l as [| pair rest IH]; intros Hall [bw col].
  - simpl. lia.
  - cbn [fold_left List.length]. rewrite IH by (intros q Hq; apply Hall; now right).
    unfold countImpression. rewrite (Hall pair (or_introl eq_refl)).
    destruct (some _ pair); simpl; lia.
Qed.

Lemma impressions_counted_from_two_pages (p : Z) (pair : list Z) :
  2 <= p ->
  In pair (flat_map (impressionsOf (totalPagesOf p))
             (sheetIndices (totalPagesOf p / 4))) ->
  some (fun q => q <=? p) pair = true.
Proof.
  intros Hp Hin. apply in_flat_map in Hin as [j [Hj Hpair]].
  apply sheetIndices_In in Hj. change (totalPagesOf p / 4) with (sheetsOf p) in Hj.
  pose proof (totalPagesOf_sheets p) as HT.
  pose proof (totalPagesOf_round p) as [_ Hround].
  unfold impressionsOf in Hpair. cbv zeta in Hpair. cbn [In] in Hpair.
  destruct Hpair as [<- | [<- | []]]; unfold some; cbn [existsb];
    rewrite !orb_true_iff, !Z.leb_le; lia.
Qed.

Lemma countImpressions_total (p : Z) (cp : list Z) :
  1 <= p ->
  fst (countImpressions p cp) + snd (countImpressions p cp)
  = if p =? 1 then 1 else totalPagesOf p / 2.
Proof.
  intros Hp. destruct (Z.eqb_spec p 1) as [-> | Hne].
  - unfold countImpressions. rewrite fold_sheetStep_impressions.
    change (flat_map (impressionsOf (totalPagesOf 1))
              (sheetIndices (totalPagesOf 1 / 4)))
      with [[4; 1]; [2; 3]].
    cbn [fold_left]. unfold countImpression, some. cbn [existsb Z.leb Z.compare
      Pos.compare Pos.compare_cont andb orb].
    destruct (includes cp 1); reflexivity.
  - unfold countImpressions. rewrite fold_sheetStep_impressions.
    rewrite fold_countImpression_all_counted
      by (intros pair; apply impressions_counted_from_two_pages; lia).
    rewrite impressions_of_sheets_length. unfold sheetIndices.
    rewrite length_map, length_seq.
    pose proof (totalPagesOf_sheets p) as HT. unfold sheetsOf in HT.
    pose proof (totalPagesOf_round p) as [_ Hround].
    cbn [fst snd]. rewrite HT at 2.
    replace (4 * (totalPagesOf p / 4)) with ((2 * (totalPagesOf p / 4)) * 2)
      by lia.
    rewrite Z.div_mul by lia. lia.
Qed.

(** X2. A brochure of one page is billed one impression per copy; from two
    pages on every impression of every sheet is billed, that is
    totalPages / 2 impressions per copy: the blank filler pages of the
    rounding never make an impression drop out. *)
Theorem counted_impressions_per_copy :
  forall (pagesPerBrochure : Z) (colorPages : list Z) (brochureCount : Z)
         (isA3 : bool),
    1 <= pagesPerBrochure ->
    let b := calculateBrochureBreakdown pagesPerBrochure colorPages
               brochureCount isA3 in
    swCount b + colorCount b
    = brochureCount * (if pagesPerBrochure =? 1 then 1
                       else totalPagesOf pagesPerBrochure / 2).
Proof.
  intros p cp n a3 Hp b.
  destruct (counts_of_breakdown p cp n a3) as [Hsw Hcol]. fold b in Hsw, Hcol.
  rewrite Hsw, Hcol, <- (countImpressions_total p cp Hp). lia.
Qed.

Lemma counted_impressions_per_copy_witness :
  let b := calculateBrochureBreakdown 6 [3] 5 true in
  swCount b + colorCount b = 5 * 4.
Proof.
  exact (counted_impressions_per_copy 6 [3] 5 true ltac:(lia)).
Defined.

(** ** Imposition: which color pages matter *)

Lemma includes_ext (cp cp' : list Z) (x : Z) :
  (In x cp <-> In x cp') -> includes cp x = includes cp' x.
Proof.
  intros H. destruct (includes cp x) eqn:E1, (includes cp' x) eqn:E2;
    try reflexivity.
  - apply includes_In in E1. apply H in E1. apply includes_In in E1. congruence.
  - apply includes_In in E2. apply H in E2. apply includes_In in E2. congruence.
Qed.

Lemma countImpression_ext (p : Z) (cp cp' : list Z) (pair : list Z) :
  (forall x, In x pair -> x <= p -> (In x cp <-> In x cp')) ->
  forall acc, countImpression p cp acc pair = countImpression p cp' acc pair.
Proof.
  intros Hext [bw col]. unfold countImpression.
  assert (Hsome : some (fun q => (q <=? p) && includes cp q) pair
                  = some (fun q => (q <=? p) && includes cp' q) pair).
  { unfold some. induction pair as [| x rest IH]; [reflexivity |].
    cbn [existsb]. rewrite IH by (intros y Hy; apply Hext; now right).
    destruct (Z.leb_spec x p) as [Hx | Hx]; [| reflexivity].
    cbn [andb]. now rewrite (includes_ext cp cp' x (Hext x (or_introl eq_refl) Hx)). }
  now rewrite Hsome.
Qed.

Lemma fold_left_ext_in {A B : Type} (f g : A -> B -> A) (l : list B) :
  (forall x, In x l -> forall acc, f acc x = g acc x) ->
  forall acc, fold_left f l acc = fold_left g l acc.
Proof.
  induction l as [| x rest IH]; intros Hext acc; [reflexivity |].
  cbn [fold_left]. rewrite (Hext x (or_introl eq_refl)).
  apply IH. intros y Hy. apply Hext. now right.
Qed.

(** The counters depend on [colorPages] only through the pages 1 ..
    pagesPerBrochure it holds. *)
Lemma countImpressions_ext (p : Z) (cp cp' : list Z) :
  (forall x, 1 <= x <= p -> (In x cp <-> In x cp')) ->
  countImpressions p cp = countImpressions p cp'.
Proof.
  intros Hext. unfold countImpressions. rewrite !fold_sheetStep_impressions.
  apply fold_left_ext_in. intros pair Hpair acc.
  apply countImpression_ext. intros x Hx Hle. apply Hext.
  assert (Hv : In x (slotsVisited p)).
  { unfold slotsVisited. cbv zeta. apply in_concat. now exists pair. }
  apply slotsVisited_range in Hv. lia.
Qed.

(** X3. The breakdown depends on colorPages only through which of the pages
    1 .. pagesPerBrochure it holds: order, repetitions, page 0 and pages
    beyond the brochure change nothing. *)
Theorem breakdown_depends_on_pages_in_range :
  forall (pagesPerBrochure : Z) (colorPages colorPages' : list Z)
         (brochureCount : Z) (isA3 : bool),
    (forall x, 1 <= x <= pagesPerBrochure ->
               (In x colorPages <-> In x colorPages')) ->
    calculateBrochureBreakdown pagesPerBrochure colorPages brochureCount isA3
    = calculateBrochureBreakdown pagesPerBrochure colorPages' brochureCount isA3.
Proof.
  intros p cp cp' n a3 Hext. unfold calculateBrochureBreakdown.
  now rewrite (countImpressions_ext p cp cp' Hext).
Qed.

Lemma breakdown_depends_on_pages_in_range_witness :
  calculateBrochureBreakdown 8 [0; 5; 3; 5; 12] 10 false
  = calculateBrochureBreakdown 8 [3; 5] 10 false.
Proof.
  apply breakdown_depends_on_pages_in_range.
  intros x Hx. cbn [In]. intuition lia.
Defined.

Lemma fold_countImpression_no_color (p : Z) (l : list (list Z)) :
  forall acc, snd (fold_left (countImpression p []) l acc) = snd acc.
Proof.
  induction l as [| pair rest IH]; intros [bw col]; [reflexivity |].
  cbn [fold_left]. rewrite IH. unfold countImpression.
  assert (Hnone : some (fun q => (q <=? p) && includes [] q) pair = false).
  { unfold some, includes. induction pair as [| x r IHr]; [reflexivity |].
    cbn [existsb]. now rewrite andb_false_r. }
  rewrite Hnone. clear Hnone.
  destruct (some (fun q => q <=? p) pair); reflexivity.
Qed.

(** X4. When no page of colorPages lies within 1 .. pagesPerBrochure nothing
    is billed as color: the color count, the color surcharge and the color
    subtotal are zero. *)
Theorem no_color_page_no_color_cost :
  forall (pagesPerBrochure : Z) (colorPages : list Z) (brochureCount : Z)
         (isA3 : bool),
    (forall x, In x colorPages -> x < 1 \/ pagesPerBrochure < x) ->
    let b := calculateBrochureBreakdown pagesPerBrochure colorPages
               brochureCount isA3 in
    colorCount b = 0 /\ effectiveColorCount b = 0 /\
    colorSurcharge b = 0%Q /\ (colorTotal b == 0)%Q.
Proof.
  intros p cp n a3 Hout b.
  assert (Hcount : countImpressions p cp = countImpressions p []).
  { apply countImpressions_ext. intros x Hx. split; [| intros []].
    intros Hin. destruct (Hout x Hin); lia. }
  assert (Hsnd : snd (countImpressions p cp) = 0).
  { rewrite Hcount. unfold countImpressions.
    rewrite fold_sheetStep_impressions. apply fold_countImpression_no_color. }
  subst b. unfold calculateBrochureBreakdown.
  destruct (countImpressions p cp) as [bw col]. cbn [snd] in Hsnd. subst col.
  cbv zeta. cbn [Z.mul].
  destruct (0 + bw * n >? 0);
    [ destruct ((if a3 then bw * n * 2 else bw * n) <? 50) |];
    destruct a3; cbn; repeat split; try reflexivity.
Qed.

Lemma no_color_page_no_color_cost_witness :
  colorCount (calculateBrochureBreakdown 8 [0; 9] 3 false) = 0.
Proof.
  apply (no_color_page_no_color_cost 8 [0; 9] 3 false).
  intros x Hx. cbn [In] in Hx. lia.
Defined.

(** ** Imposition: a color page colors one impression *)

Lemma filter_length_le_sum {A : Type} (f g h : A -> bool) (l : list A) :
  (forall a, In a l -> f a = true -> g a = true \/ h a = true) ->
  (List.length (filter f l)
   <= List.length (filter g l) + List.length (filter h l))%nat.
Proof.
  induction l as [| a rest IH]; intros Himp; [simpl; lia |].
  assert (IH' := IH (fun b Hb => Himp b (or_intror Hb))).
  pose proof (Himp a (or_introl eq_refl)) as Ha.
  cbn [filter].
  destruct (f a), (g a), (h a); cbn [List.length]; try lia;
    destruct (Ha eq_refl); discriminate.
Qed.

Lemma NoDup_app_apart {A : Type} (l l' : list A) (x : A) :
  NoDup (l ++ l') -> In x l -> ~ In x l'.
Proof.
  intros Hnd Hx Hx'. apply in_split in Hx as [l1 [l2 ->]].
  rewrite <- app_assoc in Hnd. cbn [app] in Hnd.
  apply NoDup_remove_2 in Hnd. apply Hnd.
  rewrite !in_app_iff. right. now right.
Qed.

(** A page that has one slot is held by one impression at most. *)
Lemma holders_at_most_one (x : Z) (l : list (list Z)) :
  NoDup (List.concat l) ->
  (List.length (filter (fun pair => existsb (Z.eqb x) pair) l) <= 1)%nat.
Proof.
  induction l as [| pair rest IH]; intros Hnd; [simpl; lia |].
  cbn [List.concat] in Hnd. cbn [filter].
  assert (Hrest : NoDup (List.concat rest)) by (now apply NoDup_app_remove_l in Hnd).
  destruct (existsb (Z.eqb x) pair) eqn:Hx; [| now apply IH].
  cbn [List.length].
  assert (Hnone : filter (fun q => existsb (Z.eqb x) q) rest = []).
  { clear IH. rewrite <- (filter_ext_in (fun _ => false)).
    - clear. induction rest; [reflexivity | assumption].
    - intros q Hq. symmetry. destruct (existsb (Z.eqb x) q) eqn:Hq'; [| reflexivity].
      exfalso. apply existsb_exists in Hx as [y [Hy Hxy]].
      apply existsb_exists in Hq' as [z [Hz Hxz]].
      apply Z.eqb_eq in Hxy, Hxz. subst y z.
      apply (NoDup_app_apart _ _ x Hnd Hy).
      apply in_concat. now exists q. }
  rewrite Hnone. simpl. lia.
Qed.

Lemma colored_impressions_at_most_pages (p : Z) (cp : list Z)
    (l : list (list Z)) :
  NoDup (List.concat l) ->
  (List.length
     (filter (fun pair => some (fun q => (q <=? p)%Z && includes cp q) pair) l)
   <= List.length cp)%nat.
Proof.
  intros Hnd. induction cp as [| x cp IH].
  - rewrite <- (filter_ext_in (fun _ => false)).
    + clear. induction l; [simpl; lia | assumption].
    + intros pair _. symmetry. unfold some, includes.
      induction pair as [| y r IHr]; [reflexivity |].
      cbn [existsb]. now rewrite andb_false_r.
  - pose proof (holders_at_most_one x l Hnd) as Hone.
    pose proof (filter_length_le_sum
                  (fun pair => some (fun q => (q <=? p) && includes (x :: cp) q) pair)
                  (fun pair => some (fun q => (q <=? p) && includes cp q) pair)
                  (fun pair => existsb (Z.eqb x) pair) l) as Hsum.
    cbn [List.length].
    assert (Himp : forall pair, In pair l ->
              some (fun q => (q <=? p) && includes (x :: cp) q) pair = true ->
              some (fun q => (q <=? p) && includes cp q) pair = true \/
              existsb (Z.eqb x) pair = true).
    { intros pair _ H. unfold some in *. apply existsb_exists in H as [y [Hy Hc]].
      apply andb_true_iff in Hc as [Hle Hinc]. unfold includes in Hinc.
      cbn [existsb] in Hinc. apply orb_true_iff in Hinc as [Heq | Hinc].
      - right. apply existsb_exists. exists y. split; [assumption |].
        now rewrite Z.eqb_sym.
      - left. apply existsb_exists. exists y. split; [assumption |].
        apply andb_true_iff. split; assumption. }
    specialize (Hsum Himp). lia.
Qed.

Lemma fold_countImpression_color_bound (p : Z) (cp : list Z)
    (l : list (list Z)) :
  forall acc,
    snd (fold_left (countImpression p cp) l acc)
    <= snd acc
       + Z.of_nat (List.length
           (filter (fun pair => some (fun q => (q <=? p) && includes cp q) pair) l)).
Proof.
  induction l as [| pair rest IH]; intros [bw col]; [simpl; lia |].
  cbn [fold_left filter]. specialize (IH (countImpression p cp (bw, col) pair)).
  unfold countImpression in *.
  destruct (some (fun q => q <=? p) pair);
    destruct (some (fun q => (q <=? p) && includes cp q) pair);
    cbn [snd List.length] in *; lia.
Qed.

(** X5. Each color page colors one impression at most: per copy there are no
    more color impressions than entries in colorPages. *)
Theorem color_impressions_at_most_color_pages :
  forall (pagesPerBrochure : Z) (colorPages : list Z) (brochureCount : Z)
         (isA3 : bool),
    0 <= brochureCount ->
    colorCount (calculateBrochureBreakdown pagesPerBrochure colorPages
                  brochureCount isA3)
    <= Z.of_nat (List.length colorPages) * brochureCount.
Proof.
  intros p cp n a3 Hn.
  destruct (counts_of_breakdown p cp n a3) as [_ Hcol]. rewrite Hcol.
  assert (Hbound : snd (countImpressions p cp) <= Z.of_nat (List.length cp)).
  { unfold countImpressions. rewrite fold_sheetStep_impressions.
    pose proof (fold_countImpression_color_bound p cp
                  (flat_map (impressionsOf (totalPagesOf p))
                     (sheetIndices (totalPagesOf p / 4))) (0, 0)) as Hfold.
    pose proof (colored_impressions_at_most_pages p cp _ (slotsVisited_NoDup p))
      as Hpages.
    cbn [snd] in Hfold. lia. }
  nia.
Qed.

Lemma color_impressions_at_most_color_pages_witness :
  colorCount (calculateBrochureBreakdown 8 [1; 8; 3] 2 false) <= 3 * 2.
Proof.
  apply (color_impressions_at_most_color_pages 8 [1; 8; 3] 2 false). lia.
Defined.

(** ** The cost engine: empty and valid jobs *)

Lemma countImpressions_no_pages (p : Z) (cp : list Z) :
  p <= 0 -> countImpressions p cp = (0, 0).
Proof.
  intros Hp. unfold countImpressions, sheetIndices.
  pose proof (totalPagesOf_sheets p) as HT.
  pose proof (totalPagesOf_round p) as [_ Hround]. unfold sheetsOf in HT.
  replace (Z.to_nat (totalPagesOf p / 4)) with 0%nat by lia. reflexivity.
Qed.

(** X6. A job without pages (pagesPerBrochure <= 0) or without copies
    (brochureCount = 0) counts no impression and costs nothing. *)
Theorem empty_job_costs_nothing :
  forall (pagesPerBrochure : Z) (colorPages : list Z) (brochureCount : Z)
         (isA3 : bool),
    pagesPerBrochure <= 0 \/ brochureCount = 0 ->
    let b := calculateBrochureBreakdown pagesPerBrochure colorPages
               brochureCount isA3 in
    swCount b = 0 /\ colorCount b = 0 /\
    swSurcharge b = 0%Q /\ colorSurcharge b = 0%Q /\
    swTotal b = 0%Q /\ colorTotal b = 0%Q /\
    (bindingCost b == 0)%Q /\ (totalCost b == 0)%Q.
Proof.
  intros p cp n a3 Hempty b. subst b. unfold calculateBrochureBreakdown.
  destruct Hempty as [Hp | ->].
  - rewrite (countImpressions_no_pages p cp Hp). cbv zeta.
    replace (p <? 5) with true by (symmetry; apply Z.ltb_lt; lia).
    cbn. destruct a3; repeat split; reflexivity.
  - destruct (countImpressions p cp) as [bw col]. cbv zeta.
    rewrite !Z.mul_0_r. cbn [Z.add Z.gtb Z.compare].
    cbn [swCount colorCount swSurcharge colorSurcharge swTotal colorTotal
         bindingCost totalCost].
    destruct (p <? 5); repeat split; reflexivity.
Qed.

Lemma empty_job_costs_nothing_witness :
  (totalCost (calculateBrochureBreakdown 0 [] 1 false) == 0)%Q.
Proof.
  apply (empty_job_costs_nothing 0 [] 1 false). left. lia.
Defined.

Lemma getPrice_bwTiers_pos (q : Z) : (0 < getPrice bwTiers q)%Q.
Proof.
  destruct (getPrice_bwTiers_cases q) as [H | [H | [H | [H | [H | H]]]]];
    destruct H as [_ ->]; reflexivity.
Qed.

Lemma getPrice_colorTiers_pos (q : Z) : (0 < getPrice colorTiers q)%Q.
Proof.
  destruct (getPrice_colorTiers_cases q)
    as [H | [H | [H | [H | [H | [H | H]]]]]];
    destruct H as [_ ->]; reflexivity.
Qed.

Lemma inject_Z_nonneg (z : Z) : 0 <= z -> (0 <= inject_Z z)%Q.
Proof. intros H. rewrite Zle_Qle in H. exact H. Qed.

Lemma inject_Z_pos (z : Z) : 0 < z -> (0 < inject_Z z)%Q.
Proof. intros H. rewrite Zlt_Qlt in H. exact H. Qed.

(** Counts injected into the rationals become plain unknowns for the
    arithmetic of the costs. *)
Ltac abstract_counts :=
  repeat match goal with
         | |- context [inject_Z ?z] =>
             let x := fresh "x" in
             let E := fresh "E" in
             remember (inject_Z z) as x eqn:E in *; clear E
         end.

(** X7. A job with at least one page and one copy never comes for free:
    no subtotal is negative and the grand total is above zero. *)
Theorem valid_job_costs_something :
  forall (pagesPerBrochure : Z) (colorPages : list Z) (brochureCount : Z)
         (isA3 : bool),
    1 <= pagesPerBrochure -> 1 <= brochureCount ->
    let b := calculateBrochureBreakdown pagesPerBrochure colorPages
               brochureCount isA3 in
    (0 <= swTotal b)%Q /\ (0 <= colorTotal b)%Q /\ (0 <= bindingCost b)%Q /\
    (0 < totalCost b)%Q.
Proof.
  intros p cp n a3 Hp Hn b. subst b.
  destruct (countImpressions_pos p cp Hp) as [Hbw [Hcol Hsum]].
  unfold calculateBrochureBreakdown.
  destruct (countImpressions p cp) as [bw col]. cbn [fst snd] in *. cbv zeta.
  assert (HB : 0 <= bw * n) by nia.
  assert (HC : 0 <= col * n) by nia.
  assert (HBC : 1 <= col * n + bw * n) by nia.
  pose proof (getPrice_bwTiers_pos (if a3 then bw * n * 2 else bw * n)) as Hsu.
  pose proof (getPrice_colorTiers_pos (if a3 then col * n * 2 else col * n)) as Hcu.
  set (su := getPrice bwTiers _) in *. set (cu := getPrice colorTiers _) in *.
  pose proof (inject_Z_nonneg _ HB) as HqB.
  pose proof (inject_Z_nonneg _ HC) as HqC.
  pose proof (inject_Z_pos n ltac:(lia)) as Hqn.
  assert (Hbind : (0 <= (if p <? 5 then 0 else inject_Z n * 0.18))%Q).
  { destruct (p <? 5); [discriminate | nra]. }
  set (bind := (if p <? 5 then 0%Q else (inject_Z n * 0.18)%Q)) in *.
  destruct (Z.gtb_spec (col * n + bw * n) 0) as [_ | Hno]; [| lia].
  clearbody su cu bind.
  destruct (Z.gtb_spec (col * n) 0) as [HCpos | HC0].
  - pose proof (inject_Z_nonneg (col * n - 1) ltac:(lia)) as HqC1.
    pose proof (inject_Z_pos (col * n) HCpos) as HqCp.
    destruct (Z.eqb_spec (col * n) 0) as [HC0 | _]; [lia |].
    destruct ((if a3 then col * n * 2 else col * n) <? 50);
      cbn [andb swTotal colorTotal bindingCost totalCost];
      abstract_counts; destruct a3; repeat split; try assumption; nra.
  - assert (HCz : col * n = 0) by lia.
    pose proof (inject_Z_pos (bw * n) ltac:(lia)) as HqBp.
    pose proof (inject_Z_nonneg (bw * n - 1) ltac:(lia)) as HqB1.
    rewrite HCz in *. cbn [andb Z.eqb].
    destruct ((if a3 then bw * n * 2 else bw * n) <? 50);
      cbn [swTotal colorTotal bindingCost totalCost];
      abstract_counts; destruct a3; repeat split; try assumption;
      try discriminate; nra.
Qed.

Lemma valid_job_costs_something_witness :
  (0 < totalCost (calculateBrochureBreakdown 1 [] 1 false))%Q.
Proof.
  apply (valid_job_costs_something 1 [] 1 false); lia.
Defined.

(** ** Tier lookup on any table *)

Lemma getPrice_cons_below (t : Tier) (rest : list Tier) (q : Z) :
  q < min t -> rest <> [] -> getPrice (t :: rest) q = getPrice rest q.
Proof.
  intros Hq Hrest. unfold getPrice. cbn [firstTier].
  destruct (Z.geb_spec q (min t)); [lia |].
  destruct rest as [| t' rest']; [congruence | reflexivity].
Qed.

Lemma getPrice_in_table (tiers : list Tier) (q : Z) :
  tiers <> [] -> exists t, In t tiers /\ getPrice tiers q = price t.
Proof.
  induction tiers as [| t rest IH]; intros Hne; [congruence |].
  destruct (Z.geb_spec q (min t)) as [Hge | Hlt].
  - exists t. split; [now left |]. unfold getPrice. cbn [firstTier].
    destruct (Z.geb_spec q (min t)); [reflexivity | lia].
  - destruct rest as [| t' rest'].
    + exists t. split; [now left |]. unfold getPrice. cbn [firstTier].
      destruct (Z.geb_spec q (min t)); [lia | reflexivity].
    + destruct (IH ltac:(discriminate)) as [u [Hu Hp]].
      exists u. split; [now right |].
      rewrite (getPrice_cons_below t (t' :: rest') q Hlt ltac:(discriminate)). exact Hp.
Qed.

(** X8. On every table whose prices never fall along the scan, the looked-up
    unit price never rises with the quantity. *)
Theorem getPrice_antitone_on_rising_tables :
  forall (tiers : list Tier) (q1 q2 : Z),
    pricesRiseAlongScan tiers -> q1 <= q2 ->
    (getPrice tiers q2 <= getPrice tiers q1)%Q.
Proof.
  intros tiers q1 q2 Hsorted Hq.
  induction Hsorted as [| t rest Hrest IH Hall]; [apply Qle_refl |].
  destruct (Z.geb_spec q2 (min t)) as [Hge | Hlt].
  - assert (H2 : getPrice (t :: rest) q2 = price t).
    { unfold getPrice. cbn [firstTier].
      destruct (Z.geb_spec q2 (min t)); [reflexivity | lia]. }
    rewrite H2.
    destruct (getPrice_in_table (t :: rest) q1 ltac:(discriminate))
      as [u [[<- | Hu] ->]]; [apply Qle_refl |].
    rewrite Forall_forall in Hall. now apply Hall.
  - destruct rest as [| t' rest'].
    + unfold getPrice. cbn [firstTier].
      destruct (Z.geb_spec q2 (min t)); [lia |].
      destruct (Z.geb_spec q1 (min t)); [lia |]. apply Qle_refl.
    + rewrite (getPrice_cons_below t (t' :: rest') q2 Hlt ltac:(discriminate)).
      rewrite (getPrice_cons_below t (t' :: rest') q1 ltac:(lia) ltac:(discriminate)).
      exact IH.
Qed.

Lemma bwTiers_prices_rise : pricesRiseAlongScan bwTiers.
Proof.
  unfold pricesRiseAlongScan, bwTiers.
  repeat (constructor; [| repeat (constructor; [discriminate |]); constructor]).
  constructor.
Defined.

Lemma getPrice_antitone_on_rising_tables_witness :
  (getPrice bwTiers 600 <= getPrice bwTiers 10)%Q.
Proof.
  apply (getPrice_antitone_on_rising_tables bwTiers 10 600);
    [exact bwTiers_prices_rise | lia].
Defined.

(** X9. On every table whose thresholds strictly fall along the scan, a
    quantity that reaches some threshold is priced by the tier with the
    greatest threshold it reaches. *)
Theorem getPrice_picks_greatest_threshold :
  forall (tiers : list Tier) (q : Z),
    minsFallAlongScan tiers ->
    (exists u, In u tiers /\ min u <= q) ->
    exists t, In t tiers /\ min t <= q /\ getPrice tiers q = price t /\
              (forall u, In u tiers -> min u <= q -> min u <= min t).
Proof.
  intros tiers q Hsorted.
  induction Hsorted as [| t rest Hrest IH Hall]; intros [u [Hu Hq]];
    [contradiction |].
  rewrite Forall_forall in Hall.
  destruct (Z.geb_spec q (min t)) as [Hge | Hlt].
  - exists t. split; [now left |]. split; [lia |]. split.
    + unfold getPrice. cbn [firstTier].
      destruct (Z.geb_spec q (min t)); [reflexivity | lia].
    + intros v [<- | Hv] _; [lia |]. specialize (Hall v Hv). lia.
  - destruct Hu as [<- | Hu]; [lia |].
    destruct rest as [| t' rest']; [contradiction |].
    destruct (IH (ex_intro _ u (conj Hu Hq))) as [w [Hw [Hwq [Hp Hmax]]]].
    exists w. split; [now right |]. split; [assumption |]. split.
    + rewrite (getPrice_cons_below t (t' :: rest') q Hlt ltac:(discriminate)).
      exact Hp.
    + intros v [<- | Hv] Hvq; [lia | now apply Hmax].
Qed.

Lemma colorTiers_mins_fall : minsFallAlongScan colorTiers.
Proof.
  unfold minsFallAlongScan, colorTiers.
  repeat (constructor; [| repeat (constructor; [reflexivity |]); constructor]).
  constructor.
Defined.

Lemma getPrice_picks_greatest_threshold_witness :
  exists t, In t colorTiers /\ min t <= 2000 /\
            getPrice colorTiers 2000 = price t /\
            (forall u, In u colorTiers -> min u <= 2000 -> min u <= min t).
Proof.
  apply (getPrice_picks_greatest_threshold colorTiers 2000 colorTiers_mins_fall).
  exists (mkTier 1 0.84). split; [| cbn; lia].
  unfold colorTiers. do 6 right. now left.
Defined.

Lemma firstTier_none (tiers : list Tier) (q : Z) :
  (forall u, In u tiers -> q < min u) -> firstTier tiers q = None.
Proof.
  induction tiers as [| t rest IH]; intros Hall; [reflexivity |].
  cbn [firstTier]. destruct (Z.geb_spec q (min t)) as [Hge | _].
  - specialize (Hall t (or_introl eq_refl)). lia.
  - apply IH. intros u Hu. apply Hall. now right.
Qed.

(** X10. A quantity below every threshold of the table (0 impressions, for
    the two tables of the program) is priced by the last tier. *)
Theorem getPrice_falls_back_to_last_tier :
  forall (tiers : list Tier) (q : Z) (d : Tier),
    tiers <> [] ->
    (forall u, In u tiers -> q < min u) ->
    getPrice tiers q = price (last tiers d).
Proof.
  intros tiers q d Hne Hall. unfold getPrice.
  rewrite (firstTier_none tiers q Hall).
  destruct tiers as [| t rest]; [congruence |].
  f_equal. clear. revert t. induction rest as [| t' rest IH]; intros t;
    [reflexivity |].
  cbn [last] in *. apply IH.
Qed.

Lemma getPrice_falls_back_to_last_tier_witness :
  getPrice bwTiers 0 = 0.1%Q /\ getPrice colorTiers 0 = 0.84%Q.
Proof.
  split.
  - apply (getPrice_falls_back_to_last_tier bwTiers 0 (mkTier 0 0));
      [discriminate |].
    intros u Hu. cbn [bwTiers In] in Hu.
    repeat (destruct Hu as [<- | Hu]; [cbn; lia |]). contradiction.
  - apply (getPrice_falls_back_to_last_tier colorTiers 0 (mkTier 0 0));
      [discriminate |].
    intros u Hu. cbn [colorTiers In] in Hu.
    repeat (destruct Hu as [<- | Hu]; [cbn; lia |]). contradiction.
Defined.

(** ** The parser: which error, and when *)

Lemma forallb_false_exists {A : Type} (f : A -> bool) (l : list A) :
  forallb f l = false <-> exists x, In x l /\ f x = false.
Proof.
  induction l as [| a rest IH]; cbn [forallb].
  - split; [discriminate | intros [x [[] _]]].
  - rewrite andb_false_iff, IH. split.
    + intros [Ha | [x [Hx Hf]]]; [exists a | exists x]; split;
        try assumption; [now left | now right].
    + intros [x [[<- | Hx] Hf]]; [now left | right; now exists x].
Qed.

Lemma tokenStep_error (maxPage : Z) (token : JsString) (resultSet : list Z)
    (e : ParseError) :
  tokenStep maxPage token resultSet = inl e ->
  e = InvalidRange token \/ exists v, e = PageOutOfBounds v maxPage.
Proof.
  unfold tokenStep. destruct (includesChar token hyphen).
  - destruct (rangeEnds token) as [[start |] [end_ |]];
      try (intros [= <-]; now left).
    destruct (start >? end_); [intros [= <-]; now left |].
    intros H. right. now apply rangeLoop_error in H.
  - destruct (parseInt token) as [num |]; [| discriminate].
    destruct (num >? maxPage); [| discriminate].
    intros [= <-]. right. now exists num.
Qed.

Lemma tokenLoop_error (maxPage : Z) (tokens : list JsString) :
  forall resultSet e,
    tokenLoop maxPage tokens resultSet = inl e ->
    (exists token, In token tokens /\ e = InvalidRange token) \/
    exists v, e = PageOutOfBounds v maxPage.
Proof.
  induction tokens as [| token rest IH]; intros resultSet e; cbn [tokenLoop];
    [discriminate |].
  destruct (tokenStep maxPage token resultSet) as [e' | mid] eqn:Hstep.
  - intros [= <-]. apply tokenStep_error in Hstep as [-> | Hv];
      [left; exists token; split; [now left | reflexivity] | now right].
  - intros H. apply IH in H as [[t [Ht ->]] | Hv]; [left | now right].
    exists t. split; [now right | reflexivity].
Qed.

(** X11. The character check comes first and decides alone: the parser
    reports InvalidCharacters exactly when the input holds a code unit that
    is no digit, comma, hyphen or white space; every other error cites a
    token of the input or maxPage itself. *)
Theorem invalid_characters_exactly_when_foreign_character :
  forall (input : JsString) (maxPage : Z),
    (error (parseColorPages input maxPage) = Some InvalidCharacters <->
     exists c, In c input /\ allowedChar c = false) /\
    (forall token, error (parseColorPages input maxPage)
                   = Some (InvalidRange token) ->
                   In token (tokensOf input)) /\
    (forall v bound, error (parseColorPages input maxPage)
                     = Some (PageOutOfBounds v bound) ->
                     bound = maxPage).
Proof.
  intros input maxPage. unfold parseColorPages, onlyAllowedChars.
  destruct (forallb allowedChar input) eqn:Hchars; cbn [negb].
  - assert (Hnone : ~ exists c, In c input /\ allowedChar c = false).
    { intros H. apply forallb_false_exists in H. congruence. }
    destruct (tokenLoop maxPage (tokensOf input) []) as [e | resultSet] eqn:Hloop;
      cbn [toResult error].
    + apply tokenLoop_error in Hloop as [[t [Ht ->]] | [v ->]].
      * split; [split; [discriminate | intros H; contradiction] |].
        split; [intros token [= <-]; assumption | discriminate].
      * split; [split; [discriminate | intros H; contradiction] |].
        split; [discriminate | now intros v' bound [= _ <-]].
    + split; [split; [discriminate | intros H; contradiction] |].
      split; discriminate.
  - cbn [error]. split; [| split; discriminate].
    split; [intros _; now apply forallb_false_exists | reflexivity].
Qed.

(** ** The parser: tokens *)

Lemma split_pieces_incl (sep : CodeUnit) (s : JsString) :
  forall piece, In piece (split sep s) -> forall c, In c piece -> In c s.
Proof.
  induction s as [| a rest IH]; cbn [split]; intros piece Hpiece c Hc.
  - destruct Hpiece as [<- | []]. contradiction.
  - destruct (a =? sep)%N.
    + destruct Hpiece as [<- | Hpiece]; [contradiction |].
      right. now apply (IH piece).
    + destruct (split sep rest) as [| first pieces].
      * destruct Hpiece as [<- | []]. destruct Hc as [<- | []]. now left.
      * destruct Hpiece as [<- | Hpiece].
        -- destruct Hc as [<- | Hc]; [now left | right].
           apply (IH first); [now left | assumption].
        -- right. apply (IH piece); [now right | assumption].
Qed.

Lemma dropWhile_all {A : Type} (f : A -> bool) (xs : list A) :
  (forall x, In x xs -> f x = true) -> dropWhile f xs = [].
Proof.
  induction xs as [| x rest IH]; intros Hall; [reflexivity |].
  cbn [dropWhile]. rewrite (Hall x (or_introl eq_refl)).
  apply IH. intros y Hy. apply Hall. now right.
Qed.

Lemma dropWhile_head {A : Type} (f : A -> bool) (xs : list A) (x : A)
    (rest : list A) :
  dropWhile f xs = x :: rest -> f x = false.
Proof.
  induction xs as [| y ys IH]; cbn [dropWhile]; [discriminate |].
  destruct (f y) eqn:E; [exact IH |]. intros [= <- _]. exact E.
Qed.

Lemma dropWhile_suffix {A : Type} (f : A -> bool) (xs : list A) :
  exists pre, xs = pre ++ dropWhile f xs.
Proof.
  induction xs as [| y ys [pre IH]]; [now exists [] |].
  cbn [dropWhile]. destruct (f y); [| now exists []].
  exists (y :: pre). cbn [app]. now f_equal.
Qed.

Lemma trim_head_not_space (s : JsString) (c : CodeUnit) (rest : JsString) :
  trim s = c :: rest -> isSpace c = false.
Proof.
  unfold trim. intros Htrim.
  destruct (dropWhile_suffix isSpace (rev (dropWhile isSpace s))) as [pre Hpre].
  apply (f_equal (@rev CodeUnit)) in Hpre.
  rewrite rev_involutive, rev_app_distr, Htrim in Hpre. cbn [app] in Hpre.
  now apply (dropWhile_head isSpace s c (rest ++ rev pre)).
Qed.

Lemma tokensOf_In (input token : JsString) :
  In token (tokensOf input) ->
  token <> [] /\ exists piece, In piece (split comma input) /\ token = trim piece.
Proof.
  unfold tokensOf. intros H. apply filter_In in H as [Hin Hne].
  apply in_map_iff in Hin as [piece [<- Hpiece]]. split.
  - intros E. rewrite E in Hne. discriminate.
  - now exists piece.
Qed.

(** X12. An input made of commas and white space only (the empty input
    among them) parses to no page at all, without error, whatever maxPage. *)
Theorem blank_input_parses_to_no_page :
  forall (input : JsString) (maxPage : Z),
    (forall c, In c input -> c = comma \/ isSpace c = true) ->
    parseColorPages input maxPage = {| pages := []; error := None |}.
Proof.
  intros input maxPage Hblank. unfold parseColorPages.
  assert (Hchars : onlyAllowedChars input = true).
  { apply forallb_forall. intros c Hc. unfold allowedChar.
    destruct (Hblank c Hc) as [-> | ->]; [reflexivity |].
    now rewrite !orb_true_r. }
  rewrite Hchars. cbn [negb].
  assert (Htokens : tokensOf input = []).
  { destruct (tokensOf input) as [| token rest] eqn:E; [reflexivity |].
    assert (Hin : In token (tokensOf input)) by (rewrite E; now left).
    apply tokensOf_In in Hin as [Hne [piece [Hpiece ->]]].
    exfalso. apply Hne. unfold trim.
    rewrite (dropWhile_all isSpace piece); [reflexivity |].
    intros c Hc.
    destruct (Hblank c (split_pieces_incl comma input piece Hpiece c Hc))
      as [-> | Hsp]; [| assumption].
    pose proof (split_pieces_no_sep comma input) as Hno.
    rewrite Forall_forall in Hno. now apply Hno in Hc. }
  rewrite Htokens. reflexivity.
Qed.

Lemma blank_input_parses_to_no_page_witness :
  parseColorPages (js "") 8 = {| pages := []; error := None |} /\
  parseColorPages (js " , ,, ") 8 = {| pages := []; error := None |}.
Proof.
  split.
  - apply blank_input_parses_to_no_page. intros c [].
  - apply blank_input_parses_to_no_page. intros c Hc. cbn in Hc.
    repeat (destruct Hc as [<- | Hc]; [(now left) || (now right) |]).
    contradiction.
Defined.

(** X13. After the character check a token without hyphen always holds a
    number: it starts with a digit and [parseInt] reads a value >= 0, so the
    branch that skips a non-numeric token is never taken. *)
Theorem plain_token_is_a_number :
  forall (input token : JsString),
    onlyAllowedChars input = true ->
    In token (tokensOf input) ->
    includesChar token hyphen = false ->
    exists num, parseInt token = Some num /\ 0 <= num.
Proof.
  intros input token Hchars Htoken Hplain.
  apply tokensOf_In in Htoken as [Hne [piece [Hpiece ->]]].
  destruct (trim piece) as [| c rest] eqn:Htrim; [congruence |].
  assert (Hsp : isSpace c = false) by (now apply (trim_head_not_space piece c rest)).
  assert (Hin : In c piece) by (apply trim_incl; rewrite Htrim; now left).
  assert (Hcomma : c <> comma).
  { intros ->. pose proof (split_pieces_no_sep comma input) as Hno.
    rewrite Forall_forall in Hno. now apply (Hno piece Hpiece). }
  assert (Hhyphen : c <> hyphen).
  { intros ->. apply includesChar_false in Hplain. apply Hplain. now left. }
  assert (Hdigit : isDigit c = true).
  { unfold onlyAllowedChars in Hchars. rewrite forallb_forall in Hchars.
    specialize (Hchars c (split_pieces_incl comma input piece Hpiece c Hin)).
    unfold allowedChar in Hchars. rewrite Hsp, orb_false_r in Hchars.
    apply orb_true_iff in Hchars as [Hchars | Hchars];
      [| apply N.eqb_eq in Hchars; contradiction].
    apply orb_true_iff in Hchars as [Hchars | Hchars]; [assumption |].
    apply N.eqb_eq in Hchars. contradiction. }
  assert (Hparse : exists num, parseInt (c :: rest) = Some num).
  { unfold parseInt. cbn [dropWhile]. rewrite Hsp.
    destruct (N.eqb_spec c hyphen) as [E | _]; [contradiction |].
    destruct (N.eqb_spec c plus) as [E | _].
    - subst c. discriminate.
    - cbn [takeWhile]. rewrite Hdigit. eexists. reflexivity. }
  destruct Hparse as [num Hnum]. exists num. split; [assumption |].
  apply (parseInt_nonneg (c :: rest)); [| assumption].
  now apply includesChar_false.
Qed.

Lemma plain_token_is_a_number_witness :
  exists num, parseInt (js "1 5") = Some num /\ 0 <= num.
Proof.
  apply (plain_token_is_a_number (js "1 5, 7") (js "1 5"));
    [reflexivity | now left | reflexivity].
Defined.

(** ** The parser: what a successful parse returns *)

Lemma rangeLoop_success_In (trips : nat) :
  forall i maxPage resultSet resultSet',
    rangeLoop trips i maxPage resultSet = inr resultSet' ->
    forall x, In x resultSet' <->
              In x resultSet \/ i <= x < i + Z.of_nat trips.
Proof.
  induction trips as [| trips IH]; intros i maxPage resultSet resultSet';
    cbn [rangeLoop].
  - intros [= <-] x. split; [tauto | intros [H | H]; [assumption | lia]].
  - destruct (i >? maxPage); [discriminate |].
    intros Hrun x. rewrite (IH _ _ _ _ Hrun x), setAdd_In.
    replace (Z.of_nat (S trips)) with (Z.of_nat trips + 1) by lia.
    intuition lia.
Qed.

Lemma tokenStep_success_In (maxPage : Z) (token : JsString)
    (resultSet resultSet' : list Z) :
  tokenStep maxPage token resultSet = inr resultSet' ->
  forall x, In x resultSet' <-> In x resultSet \/ tokenDenotes token x.
Proof.
  unfold tokenStep, tokenDenotes. destruct (includesChar token hyphen).
  - destruct (rangeEnds token) as [[start |] [end_ |]]; try discriminate.
    destruct (Z.gtb_spec start end_) as [Hgt | Hle]; [discriminate |].
    unfold addRange. intros Hrun x.
    rewrite (rangeLoop_success_In _ _ _ _ _ Hrun x). split.
    + intros [H | H]; [now left | right]. exists start, end_.
      split; [reflexivity | lia].
    + intros [H | [s [e [[= <- <-] H]]]]; [now left | right; lia].
  - destruct (parseInt token) as [num |].
    + destruct (num >? maxPage); [discriminate |].
      intros [= <-] x. rewrite setAdd_In. split.
      * intros [-> | H]; [now right | now left].
      * intros [H | [= ->]]; [now right | now left].
    + intros [= <-] x. split; [tauto | intros [H | H]; [assumption | discriminate]].
Qed.

Lemma tokenLoop_success_In (maxPage : Z) (tokens : list JsString) :
  forall resultSet resultSet',
    tokenLoop maxPage tokens resultSet = inr resultSet' ->
    forall x, In x resultSet' <->
              In x resultSet \/
              exists token, In token tokens /\ tokenDenotes token x.
Proof.
  induction tokens as [| token rest IH]; intros resultSet resultSet';
    cbn [tokenLoop].
  - intros [= <-] x. split; [tauto | intros [H | [t [[] _]]]; assumption].
  - destruct (tokenStep maxPage token resultSet) as [e | mid] eqn:Hstep;
      [discriminate |].
    intros Hrun x.
    rewrite (IH _ _ Hrun x), (tokenStep_success_In _ _ _ _ Hstep x). split.
    + intros [[H | H] | [t [Ht Hd]]].
      * now left.
      * right. exists token. split; [now left | assumption].
      * right. exists t. split; [now right | assumption].
    + intros [H | [t [[<- | Ht] Hd]]].
      * left. now left.
      * left. now right.
      * right. now exists t.
Qed.

(** X14. A successful parse returns exactly the pages its tokens stand for:
    x is returned if and only if some token is the number x or a range
    start-end with start <= x <= end. *)
Theorem parsed_pages_are_the_pages_of_the_tokens :
  forall (input : JsString) (maxPage : Z),
    error (parseColorPages input maxPage) = None ->
    forall x, In x (pages (parseColorPages input maxPage)) <->
              exists token, In token (tokensOf input) /\ tokenDenotes token x.
Proof.
  intros input maxPage. unfold parseColorPages.
  destruct (negb (onlyAllowedChars input)); [discriminate |].
  destruct (tokenLoop maxPage (tokensOf input) []) as [e | resultSet] eqn:Hloop;
    [discriminate |].
  intros _ x. cbn [toResult pages].
  rewrite (tokenLoop_success_In _ _ _ _ Hloop x). split.
  - intros [[] | H]. exact H.
  - intros H. now right.
Qed.

Lemma parsed_pages_are_the_pages_of_the_tokens_witness :
  In 4 (pages (parseColorPages (js "1, 3-5, 7") 10)) <->
  exists token, In token (tokensOf (js "1, 3-5, 7")) /\ tokenDenotes token 4.
Proof.
  apply (parsed_pages_are_the_pages_of_the_tokens (js "1, 3-5, 7") 10).
  reflexivity.
Defined.

Lemma rangeLoop_success_mono (trips : nat) :
  forall i maxPage maxPage' resultSet resultSet',
    maxPage <= maxPage' ->
    rangeLoop trips i maxPage resultSet = inr resultSet' ->
    rangeLoop trips i maxPage' resultSet = inr resultSet'.
Proof.
  induction trips as [| trips IH]; intros i maxPage maxPage' resultSet resultSet'
    Hle; cbn [rangeLoop]; [tauto |].
  destruct (Z.gtb_spec i maxPage); [discriminate |].
  destruct (Z.gtb_spec i maxPage'); [lia |]. now apply IH.
Qed.

Lemma tokenStep_success_mono (maxPage maxPage' : Z) (token : JsString)
    (resultSet resultSet' : list Z) :
  maxPage <= maxPage' ->
  tokenStep maxPage token resultSet = inr resultSet' ->
  tokenStep maxPage' token resultSet = inr resultSet'.
Proof.
  intros Hle. unfold tokenStep. destruct (includesChar token hyphen).
  - destruct (rangeEnds token) as [[start |] [end_ |]]; try discriminate.
    destruct (start >? end_); [discriminate |].
    unfold addRange. now apply rangeLoop_success_mono.
  - destruct (parseInt token) as [num |]; [| tauto].
    destruct (Z.gtb_spec num maxPage); [discriminate |].
    destruct (Z.gtb_spec num maxPage'); [lia | tauto].
Qed.

Lemma tokenLoop_success_mono (maxPage maxPage' : Z) (tokens : list JsString) :
  maxPage <= maxPage' ->
  forall resultSet resultSet',
    tokenLoop maxPage tokens resultSet = inr resultSet' ->
    tokenLoop maxPage' tokens resultSet = inr resultSet'.
Proof.
  intros Hle. induction tokens as [| token rest IH]; intros resultSet resultSet';
    cbn [tokenLoop]; [tauto |].
  destruct (tokenStep maxPage token resultSet) as [e | mid] eqn:Hstep;
    [discriminate |].
  rewrite (tokenStep_success_mono _ _ _ _ _ Hle Hstep). apply IH.
Qed.

(** X15. Raising maxPage never spoils a parse: an input accepted for maxPage
    is accepted, with the same pages in the same order, for every greater
    maxPage. *)
Theorem parse_survives_greater_maxPage :
  forall (input : JsString) (maxPage maxPage' : Z),
    error (parseColorPages input maxPage) = None ->
    maxPage <= maxPage' ->
    parseColorPages input maxPage' = parseColorPages input maxPage.
Proof.
  intros input maxPage maxPage'. unfold parseColorPages.
  destruct (negb (onlyAllowedChars input)); [discriminate |].
  destruct (tokenLoop maxPage (tokensOf input) []) as [e | resultSet] eqn:Hloop;
    [discriminate |].
  intros _ Hle. now rewrite (tokenLoop_success_mono _ _ _ Hle _ _ Hloop).
Qed.

Lemma parse_survives_greater_maxPage_witness :
  parseColorPages (js "1, 3-5, 7") 12 = parseColorPages (js "1, 3-5, 7") 10.
Proof.
  apply parse_survives_greater_maxPage; [reflexivity | lia].
Defined.

(** X16. A token that starts with a hyphen, as a negative number does, is
    rejected: once the token loop reaches it the result is the InvalidRange
    error for that token, with no page. *)
Theorem leading_hyphen_is_invalid_range :
  forall (input : JsString) (maxPage : Z) (pre : list JsString)
         (rest : JsString) (post : list JsString) (resultSet : list Z),
    onlyAllowedChars input = true ->
    tokensOf input = pre ++ (hyphen :: rest) :: post ->
    tokenLoop maxPage pre [] = inr resultSet ->
    parseColorPages input maxPage
    = {| pages := []; error := Some (InvalidRange (hyphen :: rest)) |}.
Proof.
  intros input maxPage pre rest post resultSet Hchars Htokens Hpre.
  assert (Hstep : tokenStep maxPage (hyphen :: rest) resultSet
                  = inl (InvalidRange (hyphen :: rest))).
  { unfold tokenStep, rangeEnds. cbn [includesChar existsb split].
    rewrite N.eqb_refl. cbn [orb map].
    change (trim []) with (@nil CodeUnit).
    change (parseInt []) with (@None Z).
    destruct (map trim (split hyphen rest)); reflexivity. }
  unfold parseColorPages. rewrite Hchars. cbn [negb].
  rewrite Htokens, tokenLoop_app, Hpre. cbn [tokenLoop]. rewrite Hstep.
  reflexivity.
Qed.

Lemma leading_hyphen_is_invalid_range_witness :
  parseColorPages (js "2, -4") 10
  = {| pages := []; error := Some (InvalidRange (js "-4")) |}.
Proof.
  apply (leading_hyphen_is_invalid_range (js "2, -4") 10 [js "2"] (js "4") []
           [2]); reflexivity.
Defined.

(** ** The component *)

Lemma filter_allowed_onlyAllowedChars (value : JsString) :
  onlyAllowedChars (filter allowedChar value) = true.
Proof.
  apply forallb_forall. intros c Hc. now apply filter_In in Hc.
Qed.

(** X17. The text kept by [handleColorPagesChange] always passes the
    character check of the parser, so InvalidCharacters is never reported
    for it; text that already passes is kept unchanged, and filtering twice
    is filtering once. *)
Theorem handler_text_passes_character_check :
  forall (value : JsString),
    onlyAllowedChars (handleColorPagesChange value) = true /\
    (forall maxPage,
       error (parseColorPages (handleColorPagesChange value) maxPage)
       <> Some InvalidCharacters) /\
    (onlyAllowedChars value = true -> handleColorPagesChange value = value) /\
    handleColorPagesChange (handleColorPagesChange value)
    = handleColorPagesChange value.
Proof.
  intros value. unfold handleColorPagesChange.
  pose proof (filter_allowed_onlyAllowedChars value) as Hok.
  assert (Hkeep : forall s, onlyAllowedChars s = true -> filter allowedChar s = s).
  { intros s Hs. unfold onlyAllowedChars in Hs. rewrite forallb_forall in Hs.
    induction s as [| c rest IH]; [reflexivity |].
    cbn [filter]. rewrite (Hs c (or_introl eq_refl)). f_equal.
    apply IH. intros x Hx. apply Hs. now right. }
  split; [exact Hok |]. split; [| split; [apply Hkeep | now apply Hkeep]].
  intros maxPage. unfold parseColorPages. rewrite Hok. cbn [negb].
  destruct (tokenLoop maxPage (tokensOf (filter allowedChar value)) [])
    as [e | resultSet] eqn:Hloop; cbn [toResult error]; [| discriminate].
  apply tokenLoop_error in Hloop as [[t [_ ->]] | [v ->]]; discriminate.
Qed.

(** X18. The component shows either an error or a breakdown, never both and
    never neither, and the breakdown shown does not depend on how the color
    pages were written: two inputs that parse to the same pages, in any
    order, show the same breakdown. *)
Theorem shown_breakdown_ignores_the_writing :
  forall (pagesState : Z) (input input' : JsString) (brochureCount : Z)
         (isA3 : bool),
    (shownError (effect pagesState input brochureCount isA3) = None <->
     shownBreakdown (effect pagesState input brochureCount isA3) <> None) /\
    (error (parseColorPages input pagesState) = None ->
     error (parseColorPages input' pagesState) = None ->
     (forall x, In x (pages (parseColorPages input pagesState)) <->
                In x (pages (parseColorPages input' pagesState))) ->
     effect pagesState input brochureCount isA3
     = effect pagesState input' brochureCount isA3).
Proof.
  intros m input input' n a3. unfold effect. cbv zeta. split.
  - destruct (error (parseColorPages input m)); cbn [shownError shownBreakdown];
      split; intros H; try discriminate; try reflexivity.
    now contradiction H.
  - intros -> -> Hsame. f_equal. f_equal.
    unfold calculateBrochureBreakdown.
    rewrite (countImpressions_ext m (pages (parseColorPages input m))
               (pages (parseColorPages input' m))
               (fun x _ => Hsame x)).
    reflexivity.
Qed.

Lemma shown_breakdown_ignores_the_writing_witness :
  effect 8 (js "1, 3-5") 10 false = effect 8 (js "5,4,3,1,1") 10 false.
Proof.
  apply (shown_breakdown_ignores_the_writing 8 (js "1, 3-5") (js "5,4,3,1,1")
           10 false); try reflexivity.
  intros x.
  change (pages (parseColorPages (js "1, 3-5") 8)) with [1; 3; 4; 5].
  change (pages (parseColorPages (js "5,4,3,1,1") 8)) with [5; 4; 3; 1].
  cbn [In]. intuition lia.
Defined.

(** ** Paper size and the monochrome rate *)

Lemma countImpressions_nonneg (p : Z) (cp : list Z) :
  0 <= fst (countImpressions p cp) /\ 0 <= snd (countImpressions p cp).
Proof.
  exact (tally_nonneg _ _ _ _ _ (countImpressions_tally p cp)).
Qed.

(** X19. For the same job the A3 monochrome unit price is at most double the
    A4 one: the doubled effective count can only reach a cheaper tier of the
    monochrome table. *)
Theorem a3_monochrome_rate_at_most_double :
  forall (pagesPerBrochure : Z) (colorPages : list Z) (brochureCount : Z),
    0 <= brochureCount ->
    (swUnitPrice (calculateBrochureBreakdown pagesPerBrochure colorPages
                    brochureCount true)
     <= 2 * swUnitPrice (calculateBrochureBreakdown pagesPerBrochure colorPages
                           brochureCount false))%Q.
Proof.
  intros p cp n Hn.
  destruct (a3_against_a4 p cp n) as [_ [_ [[Hu4 _] [[Hu3 _] _]]]].
  rewrite Hu3, Hu4.
  destruct (counts_of_breakdown p cp n false) as [Hsw _].
  destruct (countImpressions_nonneg p cp) as [Hbw _].
  assert (Heff : effectiveSwCount (calculateBrochureBreakdown p cp n false)
                 = swCount (calculateBrochureBreakdown p cp n false)).
  { unfold calculateBrochureBreakdown.
    destruct (countImpressions p cp) as [bw col]. cbv zeta.
    split_tests; reflexivity. }
  rewrite Heff, Hsw.
  pose proof (getPrice_bwTiers_antitone
                (fst (countImpressions p cp) * n)
                (2 * (fst (countImpressions p cp) * n)) ltac:(nia)) as Hanti.
  pose proof (getPrice_bwTiers_pos (fst (countImpressions p cp) * n)).
  pose proof (getPrice_bwTiers_pos (2 * (fst (countImpressions p cp) * n))).
  set (lo := getPrice bwTiers (fst (countImpressions p cp) * n)) in *.
  set (hi := getPrice bwTiers (2 * (fst (countImpressions p cp) * n))) in *.
  clearbody lo hi. lra.
Qed.

Lemma a3_monochrome_rate_at_most_double_witness :
  (swUnitPrice (calculateBrochureBreakdown 4 [] 15 true)
   <= 2 * swUnitPrice (calculateBrochureBreakdown 4 [] 15 false))%Q.
Proof.
  apply (a3_monochrome_rate_at_most_double 4 [] 15). lia.
Defined.
